(** * pySMAC: readers of SMAC output files (pysmac/utils/smac_output_readers.py)

    A shallow embedding of the module's readers:
    - [json_parse], the generator that pulls chunks from a file object and
      yields the JSON values it can decode from its buffer;
    - [map_run_result], the converter of the status column in
      [read_runs_and_results_file];
    - [read_validationCallStrings_file] and [read_instance_features_file].

    Python text is modelled by [string] (one [ascii] per character, so the
    characters of a file are those below code point 256); a decoded JSON
    string is a list of code points, since an escape can name any of them.
    Exceptions are values of [exn]; a function that can raise returns a
    [py] result. *)

From Stdlib Require Import ZArith NArith Ascii String Lia.
From stdpp Require Import base list strings gmap.

#[local] Set Warnings "-register-all".
Local Open Scope char_scope.
Local Open Scope stdpp_scope.

(** ** Characters and Python's string methods *)

Definition LF : ascii := "010".
Definition CR : ascii := "013".
Definition TAB : ascii := "009".
Definition DQUOTE : ascii := "034".
Definition SQUOTE : ascii := "039".
Definition BACKSLASH_CHAR : ascii := "092".

(** [c in chars] for a character [c]. *)
Fixpoint str_in (c : ascii) (chars : string) : bool :=
  match chars with
  | EmptyString => false
  | String d chars' => Ascii.eqb c d || str_in c chars'
  end.

(** [s.lstrip(chars)] *)
Fixpoint lstrip (chars s : string) : string :=
  match s with
  | EmptyString => EmptyString
  | String c s' => if str_in c chars then lstrip chars s' else s
  end.

(** [s.rstrip(chars)] *)
Fixpoint rstrip (chars s : string) : string :=
  match s with
  | EmptyString => EmptyString
  | String c s' =>
      match rstrip chars s' with
      | EmptyString => if str_in c chars then EmptyString else String c EmptyString
      | r => String c r
      end
  end.

(** [s.strip(chars)] *)
Definition strip (chars s : string) : string := rstrip chars (lstrip chars s).

(** [s[i:]] and [s[:n]] for indices that are not negative. *)
Fixpoint slice_from (i : nat) (s : string) : string :=
  match i, s with
  | O, _ => s
  | S _, EmptyString => EmptyString
  | S i', String _ s' => slice_from i' s'
  end.

Fixpoint slice_to (n : nat) (s : string) : string :=
  match n, s with
  | O, _ => EmptyString
  | S _, EmptyString => EmptyString
  | S n', String c s' => String c (slice_to n' s')
  end.

(** [s.startswith(p)], with the rest of [s] after the prefix. *)
Fixpoint strip_prefix (p s : string) : option string :=
  match p, s with
  | EmptyString, _ => Some s
  | String _ _, EmptyString => None
  | String a p', String b s' => if Ascii.eqb a b then strip_prefix p' s' else None
  end.

(** [sub in s] for byte strings and strings. *)
Fixpoint contains (sub s : string) : bool :=
  match strip_prefix sub s with
  | Some _ => true
  | None => match s with
            | EmptyString => false
            | String _ s' => contains sub s'
            end
  end.

Definition NEWLINE : string := String LF EmptyString.

(** The string of the two characters [json_parse] strips: a space and a
    newline. *)
Definition SPACE_NEWLINE : string := String " " (String LF EmptyString).

(** Every character of [s] is one of [chars]; the first one is; the last
    one is. *)
Fixpoint all_in (chars s : string) : bool :=
  match s with
  | EmptyString => true
  | String c s' => str_in c chars && all_in chars s'
  end.

Definition starts_in (chars s : string) : bool :=
  match s with
  | EmptyString => false
  | String c _ => str_in c chars
  end.

Fixpoint ends_in (chars s : string) : bool :=
  match s with
  | EmptyString => false
  | String c EmptyString => str_in c chars
  | String _ s' => ends_in chars s'
  end.

(** The text of a sample document, written with single quotes where the
    document has double quotes. *)
Fixpoint dq (s : string) : string :=
  match s with
  | EmptyString => EmptyString
  | String c s' => String (if Ascii.eqb c SQUOTE then DQUOTE else c) (dq s')
  end.

(** A Python [str] value that a decoder builds: its code points. *)
Definition pystr : Type := list N.

Fixpoint str (s : string) : pystr :=
  match s with
  | EmptyString => []
  | String c s' => N_of_ascii c :: str s'
  end.

(** ** Exceptions and results *)

(** The exceptions of the model. [JSONDecodeError] is a subclass of
    [ValueError]; [NameError] and [IndexError] are not. *)
Inductive exn : Type :=
| ValueError (msg : string)
| JSONDecodeError (msg : string)
| NameError (name : string)
| IndexError (msg : string)
| OtherException (name : string).

(** [isinstance(e, ValueError)], what [except ValueError] tests. *)
Definition is_ValueError (e : exn) : bool :=
  match e with
  | ValueError _ | JSONDecodeError _ => true
  | _ => false
  end.

(** The result of a call that returns or raises. *)
Inductive py (A : Type) : Type :=
| Return (a : A)
| Raise (e : exn).
Arguments Return {A} a.
Arguments Raise {A} e.

Definition py_bind {A B : Type} (m : py A) (f : A → py B) : py B :=
  match m with
  | Return a => f a
  | Raise e => Raise e
  end.

Notation "x ← m ;;; k" := (py_bind m (λ x, k))
  (at level 20, m at level 100, k at level 200, right associativity, only parsing).

(** ** JSON values and the decoder json.JSONDecoder().raw_decode

    The decoder is the default argument of [json_parse]; it belongs to
    Python's standard library.  The model follows json/scanner.py and
    json/decoder.py.  A position [(s, end)] of the library is the suffix
    [s[end:]] here, and the index a call returns is the length of what
    it consumed. *)

Inductive json : Type :=
| JNull
| JBool (b : bool)
| JInt (n : Z)
| JFloat (literal : string)  (* the float that [float(literal)] builds *)
| JString (s : pystr)
| JArray (items : list json)
| JObject (members : list (pystr * json)).  (* a dict, in insertion order *)

(** [d[k] = v] on a dict kept in insertion order. *)
Fixpoint dict_set (k : pystr) (v : json) (d : list (pystr * json)) : list (pystr * json) :=
  match d with
  | [] => [(k, v)]
  | (k', v') :: d' =>
      if bool_decide (k' = k) then (k', v) :: d' else (k', v') :: dict_set k v d'
  end.

(** [dict(pairs)] *)
Definition dict_of_pairs (pairs : list (pystr * json)) : list (pystr * json) :=
  foldl (λ d kv, dict_set kv.1 kv.2 d) [] pairs.

(** What one scanning function does: it returns a value and the rest of
    the text, raises StopIteration, raises JSONDecodeError, or (in the
    model only) runs out of fuel. *)
Inductive scan (A : Type) : Type :=
| Ok (a : A) (rest : string)
| Stop
| Err (msg : string)
| OutOfFuel.
Arguments Ok {A} a rest.
Arguments Stop {A}.
Arguments Err {A} msg.
Arguments OutOfFuel {A}.

(** WHITESPACE_STR of json/decoder.py *)
Definition is_ws (c : ascii) : bool :=
  Ascii.eqb c " " || Ascii.eqb c TAB || Ascii.eqb c LF || Ascii.eqb c CR.

(** [s[WHITESPACE.match(s, end).end():]] *)
Fixpoint skip_ws (s : string) : string :=
  match s with
  | String c s' => if is_ws c then skip_ws s' else s
  | EmptyString => EmptyString
  end.

Definition is_digit (c : ascii) : bool :=
  (48 <=? nat_of_ascii c)%nat && (nat_of_ascii c <=? 57)%nat.

Definition digit_value (c : ascii) : Z := Z.of_nat (nat_of_ascii c) - 48.

(** The longest run of digits at the front of [s], and the rest. *)
Fixpoint span_digits (s : string) : string * string :=
  match s with
  | String c s' =>
      if is_digit c then let (d, r) := span_digits s' in (String c d, r)
      else (EmptyString, s)
  | EmptyString => (EmptyString, EmptyString)
  end.

Fixpoint int_of_digits (acc : Z) (s : string) : Z :=
  match s with
  | EmptyString => acc
  | String c s' => int_of_digits (10 * acc + digit_value c) s'
  end.

(** [int(literal)] for a literal NUMBER_RE matched as an integer. *)
Definition parse_int (literal : string) : Z :=
  match literal with
  | String c ds =>
      if Ascii.eqb c "-" then - int_of_digits 0 ds else int_of_digits 0 literal
  | EmptyString => 0
  end.

(** The first group of NUMBER_RE: an optional minus sign, then a zero, or
    a digit from 1 to 9 followed by digits. *)
Definition match_integer (s : string) : option (string * string) :=
  let (sign, s1) := match s with
                    | String c s' =>
                        if Ascii.eqb c "-" then (String c EmptyString, s')
                        else (EmptyString, s)
                    | EmptyString => (EmptyString, s)
                    end in
  match s1 with
  | String c s2 =>
      if Ascii.eqb c "0" then Some (sign +:+ String c EmptyString, s2)
      else if is_digit c then
        let (d, r) := span_digits s2 in Some (sign +:+ String c d, r)
      else None
  | EmptyString => None
  end.

(** The second group of NUMBER_RE, optional: a point and one digit or more. *)
Definition match_frac (s : string) : string * string :=
  match s with
  | String c s' =>
      if Ascii.eqb c "." then
        match span_digits s' with
        | (EmptyString, _) => (EmptyString, s)
        | (d, r) => (String c d, r)
        end
      else (EmptyString, s)
  | EmptyString => (EmptyString, s)
  end.

(** The third group of NUMBER_RE, optional: e or E, an optional sign, and
    one digit or more. *)
Definition match_exp (s : string) : string * string :=
  match s with
  | String e s' =>
      if Ascii.eqb e "e" || Ascii.eqb e "E" then
        let (sign, s2) := match s' with
                          | String g s'' =>
                              if Ascii.eqb g "-" || Ascii.eqb g "+"
                              then (String g EmptyString, s'') else (EmptyString, s')
                          | EmptyString => (EmptyString, s')
                          end in
        match span_digits s2 with
        | (EmptyString, _) => (EmptyString, s)
        | (d, r) => (String e (sign +:+ d), r)
        end
      else (EmptyString, s)
  | EmptyString => (EmptyString, s)
  end.

(** [match_number(string, idx)] and the value built from its groups. *)
Definition scan_number (s : string) : option (json * string) :=
  match match_integer s with
  | None => None
  | Some (integer, s1) =>
      let (frac, s2) := match_frac s1 in
      let (exp, s3) := match_exp s2 in
      match frac, exp with
      | EmptyString, EmptyString => Some (JInt (parse_int integer), s3)
      | _, _ => Some (JFloat (integer +:+ frac +:+ exp), s3)
      end
  end.

Definition hex_value (c : ascii) : option N :=
  let n := N_of_ascii c in
  if (48 <=? n)%N && (n <=? 57)%N then Some (n - 48)%N
  else if (65 <=? n)%N && (n <=? 70)%N then Some (n - 55)%N
  else if (97 <=? n)%N && (n <=? 102)%N then Some (n - 87)%N
  else None.

(** [int(esc, 16)] for four hexadecimal digits. *)
Definition hex4 (a b c d : ascii) : option N :=
  match hex_value a, hex_value b, hex_value c, hex_value d with
  | Some x, Some y, Some z, Some w => Some (((x * 16 + y) * 16 + z) * 16 + w)%N
  | _, _, _, _ => None
  end.

(** The table BACKSLASH of json/decoder.py *)
Definition backslash (esc : ascii) : option N :=
  if Ascii.eqb esc DQUOTE then Some 34%N
  else if Ascii.eqb esc BACKSLASH_CHAR then Some 92%N
  else if Ascii.eqb esc "/" then Some 47%N
  else if Ascii.eqb esc "b" then Some 8%N
  else if Ascii.eqb esc "f" then Some 12%N
  else if Ascii.eqb esc "n" then Some 10%N
  else if Ascii.eqb esc "r" then Some 13%N
  else if Ascii.eqb esc "t" then Some 9%N
  else None.

Definition is_high_surrogate (u : N) : bool := (55296 <=? u)%N && (u <=? 56319)%N.
Definition is_low_surrogate (u : N) : bool := (56320 <=? u)%N && (u <=? 57343)%N.
Definition join_surrogates (u u2 : N) : N :=
  (65536 + N.lor (N.shiftl (u - 55296) 10) (u2 - 56320))%N.

(** [py_scanstring(s, end, strict=True)], called after the opening
    quote; [acc] holds the characters read so far, last first. *)
Fixpoint scanstring (s : string) (acc : pystr) : scan pystr :=
  match s with
  | EmptyString => Err "Unterminated string starting at"
  | String c s1 =>
      if Ascii.eqb c DQUOTE then Ok (rev acc) s1
      else if Ascii.eqb c BACKSLASH_CHAR then
        match s1 with
        | EmptyString => Err "Unterminated string starting at"
        | String esc s2 =>
            if Ascii.eqb esc "u" then
              match s2 with
              | String h1 (String h2 (String h3 (String h4 s6))) =>
                  match hex4 h1 h2 h3 h4 with
                  | None => Err "Invalid \uXXXX escape"
                  | Some uni =>
                      if is_high_surrogate uni then
                        match s6 with
                        | String b (String u2 s8) =>
                            if Ascii.eqb b BACKSLASH_CHAR && Ascii.eqb u2 "u" then
                              match s8 with
                              | String g1 (String g2 (String g3 (String g4 s12))) =>
                                  match hex4 g1 g2 g3 g4 with
                                  | None => Err "Invalid \uXXXX escape"
                                  | Some uni2 =>
                                      if is_low_surrogate uni2
                                      then scanstring s12 (join_surrogates uni uni2 :: acc)
                                      else scanstring s6 (uni :: acc)
                                  end
                              | _ => Err "Invalid \uXXXX escape"
                              end
                            else scanstring s6 (uni :: acc)
                        | _ => scanstring s6 (uni :: acc)
                        end
                      else scanstring s6 (uni :: acc)
                  end
              | _ => Err "Invalid \uXXXX escape"
              end
            else
              match backslash esc with
              | Some ch => scanstring s2 (ch :: acc)
              | None => Err "Invalid \escape"
              end
        end
      else if (N_of_ascii c <? 32)%N then Err "Invalid control character at"
      else scanstring s1 (N_of_ascii c :: acc)
  end.

(** [_scan_once(string, idx)] of json/scanner.py with JSONObject and
    JSONArray of json/decoder.py.  [object_members] and [array_items] are
    the two [while True] loops; [fuel] bounds the nesting of calls and
    loop rounds, each of which consumes a character. *)
Fixpoint scan_once (fuel : nat) (s : string) : scan json :=
  match fuel with
  | O => OutOfFuel
  | S fuel =>
      match s with
      | EmptyString => Stop
      | String nextchar s1 =>
          if Ascii.eqb nextchar DQUOTE then
            match scanstring s1 [] with
            | Ok v r => Ok (JString v) r
            | Stop => Stop
            | Err m => Err m
            | OutOfFuel => OutOfFuel
            end
          else if Ascii.eqb nextchar "{" then
            match skip_ws s1 with
            | String c s2 =>
                if Ascii.eqb c "}" then Ok (JObject []) s2
                else if Ascii.eqb c DQUOTE then object_members fuel s2 []
                else Err "Expecting property name enclosed in double quotes"
            | EmptyString => Err "Expecting property name enclosed in double quotes"
            end
          else if Ascii.eqb nextchar "[" then
            match skip_ws s1 with
            | String c s2 =>
                if Ascii.eqb c "]" then Ok (JArray []) s2
                else array_items fuel (String c s2) []
            | EmptyString => array_items fuel EmptyString []
            end
          else
            match strip_prefix "null" s, strip_prefix "true" s, strip_prefix "false" s with
            | Some r, _, _ => Ok JNull r
            | None, Some r, _ => Ok (JBool true) r
            | None, None, Some r => Ok (JBool false) r
            | None, None, None =>
                match scan_number s with
                | Some (v, r) => Ok v r
                | None =>
                    match strip_prefix "NaN" s, strip_prefix "Infinity" s,
                          strip_prefix "-Infinity" s with
                    | Some r, _, _ => Ok (JFloat "NaN") r
                    | None, Some r, _ => Ok (JFloat "Infinity") r
                    | None, None, Some r => Ok (JFloat "-Infinity") r
                    | None, None, None => Stop
                    end
                end
            end
      end
  end

with object_members (fuel : nat) (s : string) (pairs : list (pystr * json)) : scan json :=
  match fuel with
  | O => OutOfFuel
  | S fuel =>
      match scanstring s [] with
      | Ok key s1 =>
          match skip_ws s1 with
          | String c s2 =>
              if negb (Ascii.eqb c ":") then Err "Expecting ':' delimiter" else
              match scan_once fuel (skip_ws s2) with
              | Ok value s3 =>
                  let pairs := pairs ++ [(key, value)] in
                  match skip_ws s3 with
                  | String c s4 =>
                      if Ascii.eqb c "}" then Ok (JObject (dict_of_pairs pairs)) s4
                      else if Ascii.eqb c "," then
                        match skip_ws s4 with
                        | String q s5 =>
                            if Ascii.eqb q DQUOTE then object_members fuel s5 pairs
                            else Err "Expecting property name enclosed in double quotes"
                        | EmptyString =>
                            Err "Expecting property name enclosed in double quotes"
                        end
                      else Err "Expecting ',' delimiter"
                  | EmptyString => Err "Expecting ',' delimiter"
                  end
              | Stop => Err "Expecting value"
              | Err m => Err m
              | OutOfFuel => OutOfFuel
              end
          | EmptyString => Err "Expecting ':' delimiter"
          end
      | Stop => Stop
      | Err m => Err m
      | OutOfFuel => OutOfFuel
      end
  end

with array_items (fuel : nat) (s : string) (values : list json) : scan json :=
  match fuel with
  | O => OutOfFuel
  | S fuel =>
      match scan_once fuel s with
      | Ok value s1 =>
          let values := values ++ [value] in
          match skip_ws s1 with
          | String c s2 =>
              if Ascii.eqb c "]" then Ok (JArray values) s2
              else if Ascii.eqb c "," then array_items fuel (skip_ws s2) values
              else Err "Expecting ',' delimiter"
          | EmptyString => Err "Expecting ',' delimiter"
          end
      | Stop => Err "Expecting value"
      | Err m => Err m
      | OutOfFuel => OutOfFuel
      end
  end.

(** What a decoder's [raw_decode(buffer)] does: it returns the value and
    the index where the value ends, or raises. *)
Inductive decoded : Type :=
| Decoded (result : json) (index : nat)
| Raised (e : exn).

(** [json.JSONDecoder().raw_decode(s)]: one scan from index 0, with no
    whitespace skipped before the value; StopIteration becomes
    JSONDecodeError.  The fuel given is enough for every [s]
    ([raw_decode_fuel] below), so the last case is never taken.

    The interpreter's recursion limit is not part of this model.  On a
    text whose arrays and objects are nested deeper than the limit
    allows (about a thousand levels by default) the library raises
    RecursionError, which is no ValueError, where the model goes on
    decoding.  The runs of [json_parse] with this decoder that are
    evaluated below are on texts given in full, or under hypotheses
    that state how each document decodes; that the decoder raises
    nothing but ValueError is stated nowhere. *)
Definition raw_decode (s : string) : decoded :=
  match scan_once (2 * String.length s + 1) s with
  | Ok obj rest => Decoded obj (String.length s - String.length rest)
  | Stop => Raised (JSONDecodeError "Expecting value")
  | Err m => Raised (JSONDecodeError m)
  | OutOfFuel => Raised (OtherException "RecursionError")
  end.

(** ** json_parse *)

(** What the generator does, in order: each call of
    [decoder.raw_decode(buffer)] with the buffer it is given, and each
    [yield result]. *)
Inductive event : Type :=
| Attempt (buffer : string)
| Yield (result : json).

(** How the generator ends: it returns (the consumer sees StopIteration),
    an exception leaves it, or it never ends (the [while] loop goes on
    for ever; in the model, the fuel of the loop ran out). *)
Inductive completion : Type :=
| Exhausted
| Propagates (e : exn)
| Spins.

(** How the [while buffer:] loop is left: by its condition or by [break],
    with the buffer as it is then; by an exception that [except
    ValueError] does not catch; or not at all. *)
Inductive loop_exit : Type :=
| LoopDone (buffer : string)
| LoopRaised (e : exn)
| LoopSpins.

Definition values_of (trace : list event) : list json :=
  omap (λ ev, match ev with Yield v => Some v | Attempt _ => None end) trace.

Definition attempts_of (trace : list event) : list string :=
  omap (λ ev, match ev with Attempt b => Some b | Yield _ => None end) trace.

(** The successive results of [fileobj.read(buffersize)] on a text file
    whose unread content is [text]: [buffersize] characters each time,
    fewer at the end of the file, and the empty string from then on (the
    list stops before it).  [fuel] bounds the number of reads. *)
Fixpoint reads (fuel buffersize : nat) (text : string) : list string :=
  match fuel with
  | O => []
  | S fuel =>
      match slice_to buffersize text with
      | EmptyString => []
      | chunk => chunk :: reads fuel buffersize (slice_from buffersize text)
      end
  end.

Section JsonParse.

(** [decoder.raw_decode] *)
Variable decoder : string → decoded.

(** The loop [while buffer: try: ... except ValueError: break]. *)
Fixpoint while_buffer (fuel : nat) (buffer : string) : list event * loop_exit :=
  match buffer with
  | EmptyString => ([], LoopDone EmptyString)
  | String _ _ =>
      match fuel with
      | O => ([], LoopSpins)
      | S fuel =>
          match decoder buffer with
          | Decoded result index =>
              let (trace, exit) := while_buffer fuel (slice_from index buffer) in
              (Attempt buffer :: Yield result :: trace, exit)
          | Raised e =>
              if is_ValueError e then ([Attempt buffer], LoopDone buffer)
              else ([Attempt buffer], LoopRaised e)
          end
      end
  end.

(** The loop [for chunk in iter(functools.partial(fileobj.read,
    buffersize), '')] over the results [chunks] of the successive
    reads; the iterator ends at the first empty one. *)
Fixpoint for_chunk (chunks : list string) (buffer : string) : list event * completion :=
  match chunks with
  | [] => ([], Exhausted)
  | EmptyString :: _ => ([], Exhausted)
  | chunk :: chunks =>
      let buffer := buffer +:+ chunk in
      let buffer := strip SPACE_NEWLINE buffer in
      match while_buffer (String.length buffer) buffer with
      | (trace, LoopDone buffer) =>
          let (trace', c) := for_chunk chunks buffer in (trace ++ trace', c)
      | (trace, LoopRaised e) => (trace, Propagates e)
      | (trace, LoopSpins) => (trace, Spins)
      end
  end.

(** [json_parse(fileobj, decoder, buffersize)] for a file object whose
    reads return [chunks]. *)
Definition json_parse_chunks (chunks : list string) : list event * completion :=
  for_chunk chunks EmptyString.

(** [json_parse(fileobj, decoder, buffersize)] for a text file with
    content [text]. *)
Definition json_parse (text : string) (buffersize : nat) : list event * completion :=
  json_parse_chunks (reads (String.length text) buffersize text).

End JsonParse.

(** The default of [buffersize]. *)
Definition default_buffersize : nat := 2048.

(** Sample streams and the values in them. *)
Definition obj_a : json := JObject [(str "a", JInt 1)].
Definition obj_b : json := JObject [(str "b", JInt 2)].

Definition two_objects : string := dq "{'a':1} {'b':2}".
Definition malformed_stream : string := dq "{'a':1} not-json {'b':2}".
Definition trailing_whitespace_stream : string :=
  dq "{'a':1}" +:+ NEWLINE +:+ NEWLINE +:+ "   " +:+ dq "{'b':2}" +:+ NEWLINE.
Definition truncated_stream : string := dq "{'a':1} {'b':".
Definition fragment_after_two : string := dq "{'a':1} {'b':2} {'c':".
Definition split_string_stream : string := dq "{'k':'a b'}".

(** A decoder consumes at least one character whenever it succeeds. *)
Definition advances (decoder : string → decoded) : Prop :=
  ∀ s v i, decoder s = Decoded v i → 0 < i.

(** A decoder raises nothing but ValueError and its subclasses. *)
Definition raises_only_ValueError (decoder : string → decoded) : Prop :=
  ∀ s e, decoder s = Raised e → is_ValueError e = true.

(** ** The readers of whole files *)

(** [s.split(sep)] for a separator of one character. *)
Fixpoint split (sep : ascii) (s : string) : list string :=
  match s with
  | EmptyString => [EmptyString]
  | String c s' =>
      if Ascii.eqb c sep then EmptyString :: split sep s'
      else match split sep s' with
           | w :: ws => String c w :: ws
           | [] => [String c EmptyString]
           end
  end.

(** [fh.readlines()] on a file opened for reading text, whose content
    after the translation of line ends is [text]: each line keeps its
    newline. *)
Fixpoint readlines (text : string) : list string :=
  match text with
  | EmptyString => []
  | String c s' =>
      if Ascii.eqb c LF then String LF EmptyString :: readlines s'
      else match readlines s' with
           | l :: ls => String c l :: ls
           | [] => [String c EmptyString]
           end
  end.

(** The characters [s.strip()] removes: those for which [str.isspace]
    holds, among the code points below 256. *)
Definition is_space (c : ascii) : bool :=
  let n := nat_of_ascii c in
  ((9 <=? n) && (n <=? 13) || (28 <=? n) && (n <=? 32) || (n =? 133) || (n =? 160))%nat.

Fixpoint lstrip_space (s : string) : string :=
  match s with
  | EmptyString => EmptyString
  | String c s' => if is_space c then lstrip_space s' else s
  end.

Fixpoint rstrip_space (s : string) : string :=
  match s with
  | EmptyString => EmptyString
  | String c s' =>
      match rstrip_space s' with
      | EmptyString => if is_space c then EmptyString else String c EmptyString
      | r => String c r
      end
  end.

(** [s.strip()] *)
Definition strip_space (s : string) : string := rstrip_space (lstrip_space s).

(** [l[i]] for an index that is not negative. *)
Definition getitem {A : Type} (l : list A) (i : nat) : py A :=
  match l !! i with
  | Some x => Return x
  | None => Raise (IndexError "list index out of range")
  end.

(** [range(0, stop, 2)] *)
Definition range_by_2 (stop : nat) : list nat :=
  filter (λ i, Nat.even i = true) (seq 0 stop).

(** *** read_runs_and_results_file *)

(** The converter of the status column; [res] is the field's bytes. *)
Definition map_run_result (res : string) : Z :=
  if contains "TIMEOUT" res then 0
  else if contains "UNSAT" res then 1
  else if contains "SAT" res then 2
  else -1.

(** The columns [np.loadtxt] keeps: [list(range(1,14))+[15]]. *)
Definition usecols : list nat := seq 1 13 ++ [15].

Section Loadtxt.

(** The entries of the array ([dtype] double), the double of an
    integer, and the conversion [np.loadtxt] applies to the text of a
    field that has no converter of its own. *)
Variable double : Type.
Variable double_of_int : Z → double.
Variable default_converter : string → py double.

(** What [np.loadtxt] stores for the field [field] of column [col],
    given [converters={13:map_run_result}]. *)
Definition convert_field (col : nat) (field : string) : py double :=
  if (col =? 13)%nat then Return (double_of_int (map_run_result field))
  else default_converter field.

End Loadtxt.

(** *** read_validationCallStrings_file *)

(** The loop [for i in range(0,len(config_string),2)] over the indices
    [indices] still to come. The right-hand side of the assignment is
    evaluated before the key. *)
Fixpoint fill_tmp_dict (config_string : list string) (indices : list nat)
    (tmp_dict : gmap string string) : py (gmap string string) :=
  match indices with
  | [] => Return tmp_dict
  | i :: indices =>
      value ← getitem config_string (i + 1) ;;;
      key ← getitem config_string i ;;;
      fill_tmp_dict config_string indices
        (<[lstrip "-" key := strip (String SQUOTE EmptyString) value]> tmp_dict)
  end.

(** The body of the loop over the lines: the dictionary of one line. *)
Definition line_dict (line : string) : py (gmap string string) :=
  field ← getitem (split "," line) 1 ;;;
  let config_string := strip (String DQUOTE EmptyString) field in
  let config_string := split " " config_string in
  fill_tmp_dict config_string (range_by_2 (length config_string)) ∅.

Fixpoint lines_dicts (lines : list string) (param_dict_list : list (gmap string string))
    : py (list (gmap string string)) :=
  match lines with
  | [] => Return param_dict_list
  | line :: lines =>
      tmp_dict ← line_dict line ;;;
      lines_dicts lines (param_dict_list ++ [tmp_dict])
  end.

(** [read_validationCallStrings_file(fn)] for a file [fn] with content
    [text]. *)
Definition read_validationCallStrings_file (text : string) : py (list (gmap string string)) :=
  lines_dicts (drop 1 (readlines text)) [].

(** The tokens of a line's configuration field, as
    [read_validationCallStrings_file] takes them: the second of the
    line's comma-separated fields, without the double quotes at its
    ends, split at every space.  [None] when the line has no second
    field. *)
Definition config_tokens (line : string) : option (list string) :=
  match split "," line !! 1 with
  | Some field => Some (split " " (strip (String DQUOTE EmptyString) field))
  | None => None
  end.

(** The pairing the function is meant to build, stated on the tokens two
    by two rather than by index: each flag, without its leading dashes,
    with the token that follows it, without the single quotes at its
    ends. *)
Fixpoint flag_value_pairs (tokens : list string) : list (string * string) :=
  match tokens with
  | flag :: value :: tokens =>
      (lstrip "-" flag, strip (String SQUOTE EmptyString) value) :: flag_value_pairs tokens
  | _ => []
  end.

(** The dictionary of these pairs; where a flag occurs twice, the later
    pair stands. *)
Definition dict_of_flag_values (tokens : list string) : gmap string string :=
  list_to_map (reverse (flag_value_pairs tokens)).

(** Sample files: a header and one line, with four tokens and with
    three. *)
Definition QUOTE : string := String DQUOTE EmptyString.
Definition call_strings_even : string :=
  "id,config,seed" +:+ NEWLINE
  +:+ "1," +:+ QUOTE +:+ "-alpha '0.5' -beta 'x'" +:+ QUOTE +:+ ",0" +:+ NEWLINE.
Definition call_strings_odd : string :=
  "id,config,seed" +:+ NEWLINE
  +:+ "1," +:+ QUOTE +:+ "-alpha '0.5' -beta" +:+ QUOTE +:+ ",0" +:+ NEWLINE.
Definition features_file : string :=
  "instance,f1,f2" +:+ NEWLINE +:+ "inst1,1.0,2.0" +:+ NEWLINE.

(** *** read_instance_features_file *)

(** The names the module binds at its top level: what it imports and the
    functions it defines. *)
Definition module_globals : list string :=
  ["json"; "functools"; "re"; "operator"; "np"; "json_parse";
   "read_runs_and_results_file"; "read_paramstrings_file";
   "read_validationCallStrings_file"; "read_validationObjectiveMatrix_file";
   "read_instances_file"; "read_instance_features_file"].

(** Evaluating a name that is neither local nor a builtin ([join] is not
    a builtin): the value bound to it in the module, or NameError. *)
Definition load_global {A : Type} (name : string) (bound : A) : py A :=
  if bool_decide (name ∈ module_globals) then Return bound
  else Raise (NameError name).

Section InstanceFeatures.

(** A numpy array of doubles and [np.array(x, dtype=np.double)]. *)
Variable ndarray : Type.
Variable np_array : list string → py ndarray.
(** What the name [join] would stand for, were it bound. *)
Variable join : list string → py (list string).

(** The loop [for line in lines[1:]]. *)
Fixpoint fill_instances (lines : list string) (instances : gmap string ndarray)
    : py (gmap string ndarray) :=
  match lines with
  | [] => Return instances
  | line :: lines =>
      let tmp := split "," (strip_space line) in
      f ← load_global "join" join ;;;
      joined ← f (drop 1 tmp) ;;;
      array ← np_array joined ;;;
      key ← getitem tmp 0 ;;;
      fill_instances lines (<[key := array]> instances)
  end.

(** [read_instance_features_file(fn)] for a file [fn] with content
    [text]. *)
Definition read_instance_features_file (text : string)
    : py (list string * gmap string ndarray) :=
  let lines := readlines text in
  instances ← fill_instances (drop 1 lines) ∅ ;;;
  header ← getitem lines 0 ;;;
  Return (drop 1 (split "," header), instances).

End InstanceFeatures.

(** ** json_parse: documents packed in a chunk, and the shape of a run *)

(** [''.join(parts)] *)
Definition concat_str (parts : list string) : string :=
  foldr String.append EmptyString parts.

(** The texts [docs] follow one another with nothing between them, and
    the decoder, given what is left from each of them on, returns the
    value of [vals] at the same place and stops where the text ends. *)
Fixpoint packed (decoder : string → decoded) (docs : list string) (vals : list json)
    : Prop :=
  match docs, vals with
  | [], [] => True
  | doc :: docs, v :: vals =>
      doc ≠ EmptyString
      ∧ decoder (doc +:+ concat_str docs) = Decoded v (String.length doc)
      ∧ packed decoder docs vals
  | _, _ => False
  end.

(** Every decode attempt of [trace] is followed by the value the
    decoder returned on its buffer, or is one on which the decoder
    raised; no value is yielded otherwise. *)
Fixpoint attempts_explain (decoder : string → decoded) (trace : list event) : Prop :=
  match trace with
  | [] => True
  | Attempt b :: trace' =>
      match trace' with
      | Yield v :: trace'' =>
          (∃ index, decoder b = Decoded v index) ∧ attempts_explain decoder trace''
      | _ => (∃ e, decoder b = Raised e) ∧ attempts_explain decoder trace'
      end
  | Yield _ :: _ => False
  end.

(** ** More of Python's string methods *)

(** The characters for which [str.isspace] holds, among the code points
    below 256, as a string. *)
Definition WHITESPACE : string :=
  String "009" (String "010" (String "011" (String "012" (String "013"
  (String "028" (String "029" (String "030" (String "031" (String "032"
  (String "133" (String "160" EmptyString))))))))))).

(** [s.find(c)] for a character [c]: the first index where it stands,
    or -1. *)
Fixpoint str_find (c : ascii) (s : string) : Z :=
  match s with
  | EmptyString => -1
  | String d s' =>
      if Ascii.eqb d c then 0
      else let i := str_find c s' in if (i =? -1)%Z then -1 else i + 1
  end.

(** [s.replace(c, '')] for a character [c]. *)
Fixpoint remove_char (c : ascii) (s : string) : string :=
  match s with
  | EmptyString => EmptyString
  | String d s' => if Ascii.eqb d c then remove_char c s' else String d (remove_char c s')
  end.

(** [s.count(c)] for a character [c]. *)
Fixpoint count_char (c : ascii) (s : string) : nat :=
  match s with
  | EmptyString => 0
  | String d s' => (if Ascii.eqb d c then 1 else 0) + count_char c s'
  end.

(** [sep.join(parts)] *)
Fixpoint join (sep : string) (parts : list string) : string :=
  match parts with
  | [] => EmptyString
  | [part] => part
  | part :: parts => part +:+ sep +:+ join sep parts
  end.

(** [s.split()]: the runs of characters that are not whitespace. *)
Fixpoint split_whitespace (s : string) : list string :=
  match s with
  | EmptyString => []
  | String c s' =>
      if is_space c then split_whitespace s'
      else
        match s' with
        | EmptyString => [String c EmptyString]
        | String d _ =>
            if is_space d then String c EmptyString :: split_whitespace s'
            else match split_whitespace s' with
                 | word :: words => String c word :: words
                 | [] => [String c EmptyString]
                 end
        end
  end.

(** *** read_paramstrings_file *)

(** [line[line.find(':')+1:].replace("'","")]: the line without its run
    id and without single quotes. *)
Definition without_run_id (line : string) : string :=
  remove_char SQUOTE (slice_from (Z.to_nat (str_find ":" line + 1)) line).

(** The unpacking [[k, v]] of an element of [pairs]. *)
Definition unpack_pair (item : list string) : py (string * string) :=
  match item with
  | [] => Raise (ValueError "not enough values to unpack (expected 2, got 0)")
  | [_] => Raise (ValueError "not enough values to unpack (expected 2, got 1)")
  | [k; v] => Return (k, v)
  | _ => Raise (ValueError "too many values to unpack (expected 2)")
  end.

(** [{k:v for [k, v] in pairs}], from the dictionary built so far. *)
Fixpoint dict_of_pairs_from (pairs : list (list string)) (d : gmap string string)
    : py (gmap string string) :=
  match pairs with
  | [] => Return d
  | item :: pairs =>
      kv ← unpack_pair item ;;;
      dict_of_pairs_from pairs (<[kv.1 := kv.2]> d)
  end.

(** The body of the loop over the lines: the dictionary of one line. *)
Definition paramstring_dict (line : string) : py (gmap string string) :=
  let line := without_run_id line in
  let pairs := (λ s, split "=" (strip_space s)) <$> split "," line in
  dict_of_pairs_from pairs ∅.

Fixpoint paramstring_dicts (lines : list string) (param_dict_list : list (gmap string string))
    : py (list (gmap string string)) :=
  match lines with
  | [] => Return param_dict_list
  | line :: lines =>
      d ← paramstring_dict line ;;;
      paramstring_dicts lines (param_dict_list ++ [d])
  end.

(** [read_paramstrings_file(fn)] for a file [fn] with content [text]. *)
Definition read_paramstrings_file (text : string) : py (list (gmap string string)) :=
  paramstring_dicts (readlines text) [].

(** A line of a paramstring file as SMAC writes it: the run id, a colon,
    and the parameters, each as a space, the name, an equals sign and
    the value in single quotes, with commas between them. *)
Definition paramstring_line (run_id : string) (params : list (string * string)) : string :=
  run_id +:+ ":"
  +:+ join "," ((λ kv, " " +:+ kv.1 +:+ "='" +:+ kv.2 +:+ "'") <$> params)
  +:+ NEWLINE.

(** *** read_instances_file *)

(** [read_instances_file(fn)] for a file [fn] with content [text]. *)
Definition read_instances_file (text : string) : list (list string) :=
  (λ s, split_whitespace (strip_space s)) <$> readlines text.

(** A parameter name and a value that a paramstring line can carry: no
    single quote, comma, equals sign or newline in them, no whitespace
    before the name, none after the value. *)
Definition clean_name (k : string) : bool :=
  negb (str_in SQUOTE k) && negb (str_in "," k) && negb (str_in "=" k)
  && negb (str_in LF k) && negb (starts_in WHITESPACE k).

Definition clean_value (v : string) : bool :=
  negb (str_in SQUOTE v) && negb (str_in "," v) && negb (str_in "=" v)
  && negb (str_in LF v) && negb (ends_in WHITESPACE v).

(** A token of an instance file: one character or more, none of them
    whitespace. *)
Fixpoint no_whitespace (s : string) : bool :=
  match s with
  | EmptyString => true
  | String c s' => negb (is_space c) && no_whitespace s'
  end.

Definition is_token (tok : string) : bool :=
  match tok with
  | EmptyString => false
  | String _ _ => no_whitespace tok
  end.

(** *** read_validationObjectiveMatrix_file *)

(** The characters that the pattern [\w] matches, among the code points
    below 256. *)
Definition is_word (c : ascii) : bool :=
  let n := nat_of_ascii c in
  ((48 <=? n) && (n <=? 57) || (65 <=? n) && (n <=? 90) || (n =? 95)
   || (97 <=? n) && (n <=? 122) || (n =? 170) || (n =? 178) || (n =? 179)
   || (n =? 181) || (n =? 185) || (n =? 186) || (188 <=? n) && (n <=? 190)
   || (192 <=? n) && (n <=? 214) || (216 <=? n) && (n <=? 246)
   || (248 <=? n) && (n <=? 255))%nat.

(** The characters of the class [0-9.] *)
Definition is_score_char (c : ascii) : bool := is_digit c || Ascii.eqb c ".".

(** The longest run of characters with [p] at the front of [s], and the
    rest: what a starred class matches when the pattern goes on with a
    character outside the class. *)
Fixpoint span (p : ascii → bool) (s : string) : string * string :=
  match s with
  | String c s' =>
      if p c then let (run, rest) := span p s' in (String c run, rest)
      else (EmptyString, s)
  | EmptyString => (EmptyString, EmptyString)
  end.

(** The pattern [\w?]: it takes a word character when one is there. The
    pattern goes on with a comma or a double quote, neither of them a
    word character, so a match never leaves out a character it could
    take. *)
Definition match_optional_word (s : string) : string :=
  match s with
  | String c s' => if is_word c then s' else s
  | EmptyString => EmptyString
  end.

(** The pattern [\w?,\w?] between two fields: the rest of the text after
    it, when it matches. *)
Definition match_separator (s : string) : option string :=
  match match_optional_word s with
  | String c s' => if Ascii.eqb c "," then Some (match_optional_word s') else None
  | EmptyString => None
  end.

(** A run of characters of a class as a group, after the text [opening]
    and before a double quote: the group and the rest of the text. *)
Definition match_group (opening : string) (p : ascii → bool) (s : string)
    : option (string * string) :=
  match strip_prefix opening s with
  | Some s1 =>
      let (group, s2) := span p s1 in
      match s2 with
      | String c s3 => if Ascii.eqb c DQUOTE then Some (group, s3) else None
      | EmptyString => None
      end
  | None => None
  end.

(** The part of the pattern for [n] scores: each a separator and a
    quoted group of the class [0-9.] *)
Fixpoint match_scores (n : nat) (s : string) : option (list string) :=
  match n with
  | O => Some []
  | S n =>
      match match_separator s with
      | Some s1 =>
          match match_group (String DQUOTE EmptyString) is_score_char s1 with
          | Some (group, s2) =>
              match match_scores n s2 with
              | Some groups => Some (group :: groups)
              | None => None
              end
          | None => None
          end
      | None => None
      end
  end.

(** [re.match(re_string, line)] for the pattern built from
    [num_configs]: the groups 1, 2 and those from 3 on, or [None]. The
    pattern has no score group when [num_configs] is negative, a list
    repeated a negative number of times being empty. *)
Definition re_match (num_configs : Z) (line : string)
    : option (string * string * list string) :=
  match match_group (String DQUOTE "id_") is_digit line with
  | Some (id, s1) =>
      match match_separator s1 with
      | Some s2 =>
          match match_group (String DQUOTE EmptyString) is_digit s2 with
          | Some (count, s3) =>
              match match_scores (Z.to_nat num_configs) s3 with
              | Some scores => Some (id, count, scores)
              | None => None
              end
          | None => None
          end
      | None => None
      end
  | None => None
  end.

(** Every character of [s] satisfies [p]. *)
Fixpoint all_chars (p : ascii → bool) (s : string) : bool :=
  match s with
  | EmptyString => true
  | String c s' => p c && all_chars p s'
  end.

(** [sys.int_info.default_max_str_digits]: the number of digits beyond
    which CPython's [int] refuses a decimal text, unless the limit was
    changed with [sys.set_int_max_str_digits]. *)
Definition int_max_str_digits : nat := 4300.

(** [int(s)] for a text of decimal digits, as group 1 is: ValueError for
    the empty text and for a text of more than [int_max_str_digits]
    digits, leading zeros counted. *)
Definition int_of_decimal (s : string) : py Z :=
  match s with
  | EmptyString => Raise (ValueError "invalid literal for int() with base 10: ''")
  | String _ _ =>
      if (int_max_str_digits <? String.length s)%nat
      then Raise (ValueError "Exceeds the limit (4300 digits) for integer string conversion")
      else Return (int_of_digits 0 s)
  end.

Section ObjectiveMatrix.

(** A float, and [float(s)] for the text of a score, which raises
    ValueError when the text is no number. *)
Variable double : Type.
Variable float : string → py double.

(** [list(map(float, scores))] *)
Fixpoint map_float (scores : list string) : py (list double) :=
  match scores with
  | [] => Return []
  | score :: scores =>
      x ← float score ;;;
      xs ← map_float scores ;;;
      Return (x :: xs)
  end.

(** The body of the loop over the lines. The right-hand side of the
    assignment is evaluated before the key. *)
Definition matrix_row (num_configs : Z) (line : string) (values : gmap Z (list double))
    : py (gmap Z (list double)) :=
  match re_match num_configs line with
  | None => Raise (OtherException "AttributeError")
  | Some (id, _, scores) =>
      row ← map_float scores ;;;
      key ← int_of_decimal id ;;;
      Return (<[key := row]> values)
  end.

Fixpoint matrix_rows (num_configs : Z) (lines : list string) (values : gmap Z (list double))
    : py (gmap Z (list double)) :=
  match lines with
  | [] => Return values
  | line :: lines =>
      values ← matrix_row num_configs line values ;;;
      matrix_rows num_configs lines values
  end.

(** [read_validationObjectiveMatrix_file(fn)] for a file [fn] with
    content [text]; [fh.readline()] is the first line, or the empty
    string when the file is empty. *)
Definition read_validationObjectiveMatrix_file (text : string)
    : py (gmap Z (list double)) :=
  let lines := readlines text in
  let header := split "," (match lines with
                           | [] => EmptyString
                           | line :: _ => line
                           end) in
  let num_configs := (Z.of_nat (length header) - 2)%Z in
  matrix_rows num_configs (drop 1 lines) ∅.

(** A row of a matrix file as it is written for [n] configurations,
    with the floats its scores stand for; the id has no more digits than
    [int] accepts. *)
Definition written_row (n : nat) (row : string * string * list string * list double)
    : Prop :=
  let '(id, count, scores, xs) := row in
  id ≠ EmptyString ∧ String.length id ≤ int_max_str_digits
  ∧ all_chars is_digit id = true ∧ all_chars is_digit count = true
  ∧ Forall (λ score, all_chars is_score_char score = true) scores
  ∧ length scores = n
  ∧ map_float scores = Return xs.

End ObjectiveMatrix.

(** A line of the matrix as it is written: the quoted id, the quoted
    count, and the quoted scores, with commas between them. *)
Definition matrix_line (id count : string) (scores : list string) : string :=
  QUOTE +:+ "id_" +:+ id +:+ QUOTE +:+ "," +:+ QUOTE +:+ count +:+ QUOTE
  +:+ concat_str ((λ score, "," +:+ QUOTE +:+ score +:+ QUOTE) <$> scores).


(** As [packed], with the text [tail] after the last document. *)
Fixpoint packed_before (decoder : string → decoded) (tail : string)
    (docs : list string) (vals : list json) : Prop :=
  match docs, vals with
  | [], [] => True
  | doc :: docs, v :: vals =>
      doc ≠ EmptyString
      ∧ decoder (doc +:+ concat_str docs +:+ tail) = Decoded v (String.length doc)
      ∧ packed_before decoder tail docs vals
  | _, _ => False
  end.

(** The loop of [json_parse] over a file object whose reads can fail:
    [reads] holds what the successive calls of [fileobj.read(buffersize)]
    do, each one returning a chunk or raising.  The call is made by the
    iterator of the [for] statement, outside the [try]: what it raises
    leaves the generator, a ValueError too. *)
Fixpoint for_read (decoder : string → decoded) (reads : list (py string)) (buffer : string)
    : list event * completion :=
  match reads with
  | [] => ([], Exhausted)
  | Raise e :: _ => ([], Propagates e)
  | Return EmptyString :: _ => ([], Exhausted)
  | Return chunk :: reads =>
      let buffer := buffer +:+ chunk in
      let buffer := strip SPACE_NEWLINE buffer in
      match while_buffer decoder (String.length buffer) buffer with
      | (trace, LoopDone buffer) =>
          let (trace', c) := for_read decoder reads buffer in (trace ++ trace', c)
      | (trace, LoopRaised e) => (trace, Propagates e)
      | (trace, LoopSpins) => (trace, Spins)
      end
  end.

(** [json_parse(fileobj, decoder, buffersize)] for a file object whose
    reads do [reads]. *)
Definition json_parse_reads (decoder : string → decoded) (reads : list (py string))
    : list event * completion :=
  for_read decoder reads EmptyString.

(** The single quote, as a text. *)
Definition APOSTROPHE : string := String SQUOTE EmptyString.

(** A line as [read_validationCallStrings_file] takes it apart: an
    identifier, a comma, and between double quotes the flags, each with
    a dash before it and followed by its value between single quotes,
    with one space between the tokens; [tail] is what follows the
    closing double quote. *)
Definition call_string_tokens (pairs : list (string * string)) : list string :=
  pairs ≫= (λ kv, ["-" +:+ kv.1; APOSTROPHE +:+ kv.2 +:+ APOSTROPHE]).

Definition call_string_line (id : string) (pairs : list (string * string)) (tail : string)
    : string :=
  id +:+ "," +:+ QUOTE +:+ join " " (call_string_tokens pairs) +:+ QUOTE +:+ tail.

(** A flag that the function gives back as written: no space, comma or
    newline in it, and no dash at its start. *)
Definition is_flag (k : string) : bool :=
  negb (str_in " " k) && negb (str_in "," k) && negb (str_in LF k)
  && negb (starts_in "-" k).

(** A value that the function gives back as written: no space, comma or
    newline in it, and no single quote at either end. *)
Definition is_flag_value (v : string) : bool :=
  negb (str_in " " v) && negb (str_in "," v) && negb (str_in LF v)
  && negb (starts_in APOSTROPHE v) && negb (ends_in APOSTROPHE v).

(** * Properties *)

(** ** Strings *)

Lemma append_cons (c : ascii) (a b : string) :
  String c a +:+ b = String c (a +:+ b).
Proof. reflexivity. Qed.

Lemma append_nil (b : string) : EmptyString +:+ b = b.
Proof. reflexivity. Qed.

Lemma length_append (a b : string) :
  String.length (a +:+ b) = String.length a + String.length b.
Proof.
  induction a as [|c a IH]; [done|]. rewrite append_cons. simpl. by rewrite IH.
Qed.

Lemma append_empty_r (a : string) : a +:+ EmptyString = a.
Proof. induction a as [|c a IH]; [done|]. by rewrite append_cons, IH. Qed.

Lemma append_assoc (a b c : string) : (a +:+ b) +:+ c = a +:+ (b +:+ c).
Proof. induction a as [|x a IH]; [done|]. by rewrite !append_cons, IH. Qed.

Lemma slice_to_all (n : nat) (s : string) :
  String.length s ≤ n → slice_to n s = s.
Proof.
  revert n. induction s as [|c s IH]; intros [|n] Hn; simpl in *; try done; try lia.
  rewrite IH; [done | lia].
Qed.

Lemma slice_from_all (n : nat) (s : string) :
  String.length s ≤ n → slice_from n s = EmptyString.
Proof.
  revert n. induction s as [|c s IH]; intros [|n] Hn; simpl in *; try done; try lia.
  apply IH. lia.
Qed.

Lemma slice_from_length (i : nat) (s : string) :
  String.length (slice_from i s) = String.length s - i.
Proof.
  revert i. induction s as [|c s IH]; intros [|i]; simpl; done.
Qed.

Lemma slice_to_from (n : nat) (s : string) : slice_to n s +:+ slice_from n s = s.
Proof.
  revert n. induction s as [|c s IH]; intros [|n]; try done.
  simpl. by rewrite append_cons, IH.
Qed.

Lemma strip_prefix_length (p s r : string) :
  strip_prefix p s = Some r → String.length s = String.length p + String.length r.
Proof.
  revert s. induction p as [|a p IH]; intros [|b s] H; simpl in *; simplify_eq; try done.
  destruct (Ascii.eqb a b); [|done]. by rewrite (IH _ H).
Qed.

Lemma skip_ws_length (s : string) : String.length (skip_ws s) ≤ String.length s.
Proof. induction s as [|c s IH]; simpl; [done|]. destruct (is_ws c); simpl; lia. Qed.

(** ** The decoder: what a scan consumes, and the fuel it needs *)

Lemma span_digits_length (s d r : string) :
  span_digits s = (d, r) → String.length s = String.length d + String.length r.
Proof.
  revert d r. induction s as [|c s IH]; intros d r H; simpl in *; simplify_eq; [done|].
  destruct (is_digit c); simplify_eq; [|done].
  destruct (span_digits s) as [d' r'] eqn:E. simplify_eq. simpl. by rewrite (IH _ _ eq_refl).
Qed.

(** Collects what the scanning steps in the context say about lengths. *)
Ltac digits_lengths :=
  repeat match goal with
    | E : span_digits _ = _ |- _ => apply span_digits_length in E; simpl in E
    end.

Lemma match_integer_shorter (s i r : string) :
  match_integer s = Some (i, r) → String.length r < String.length s.
Proof.
  unfold match_integer. intros H.
  repeat case_match; simplify_eq; digits_lengths; simpl; lia.
Qed.

Lemma match_frac_length (s f r : string) :
  match_frac s = (f, r) → String.length r ≤ String.length s.
Proof.
  unfold match_frac. intros H.
  repeat case_match; simplify_eq; digits_lengths; simpl; lia.
Qed.

Lemma match_exp_length (s f r : string) :
  match_exp s = (f, r) → String.length r ≤ String.length s.
Proof.
  unfold match_exp. intros H.
  repeat case_match; simplify_eq; digits_lengths; simpl; lia.
Qed.

Lemma scan_number_shorter (s r : string) (v : json) :
  scan_number s = Some (v, r) → String.length r < String.length s.
Proof.
  unfold scan_number. intros H.
  destruct (match_integer s) as [[i s1]|] eqn:Ei; [|done].
  destruct (match_frac s1) as [f s2] eqn:Ef.
  destruct (match_exp s2) as [e s3] eqn:Ee.
  apply match_integer_shorter in Ei. apply match_frac_length in Ef.
  apply match_exp_length in Ee.
  assert (r = s3) as -> by (repeat case_match; by simplify_eq).
  lia.
Qed.

Lemma scanstring_shorter_aux (n : nat) :
  ∀ (s r : string) (acc v : pystr),
    String.length s ≤ n → scanstring s acc = Ok v r → String.length r < String.length s.
Proof.
  induction n as [|n IH]; intros s r acc v Hn H.
  - destruct s; simpl in *; [done | lia].
  - destruct s as [|c s1]; [done|]. simpl in H.
    repeat case_match; simplify_eq; simpl String.length in *;
      try (match goal with
           | E : scanstring _ _ = Ok _ _ |- _ =>
               apply IH in E; simpl String.length in *; lia
           end);
      try lia.
Qed.

Lemma scanstring_shorter (s r : string) (acc v : pystr) :
  scanstring s acc = Ok v r → String.length r < String.length s.
Proof. by apply (scanstring_shorter_aux (String.length s)). Qed.

Lemma scanstring_result_aux (n : nat) :
  ∀ (s : string) (acc : pystr),
    String.length s ≤ n → scanstring s acc ≠ OutOfFuel ∧ scanstring s acc ≠ Stop.
Proof.
  induction n as [|n IH]; intros s acc Hn.
  - destruct s; simpl in *; [done | lia].
  - destruct s as [|c s1]; [done|]. simpl.
    repeat case_match; simplify_eq; simpl String.length in *;
      try done; apply IH; simpl String.length; lia.
Qed.

(** A string scan returns or raises JSONDecodeError: it has no fuel to
    run out of and never raises StopIteration. *)
Lemma scanstring_result (s : string) (acc : pystr) :
  scanstring s acc ≠ OutOfFuel ∧ scanstring s acc ≠ Stop.
Proof. by apply (scanstring_result_aux (String.length s)). Qed.

#[local] Arguments strip_prefix : simpl never.
#[local] Arguments scan_number : simpl never.
#[local] Arguments scanstring : simpl never.
#[local] Arguments skip_ws : simpl never.

(** Turns the scanning steps recorded in the context into facts about
    lengths. *)
Ltac scan_lengths :=
  repeat match goal with
    | E : scanstring _ _ = Ok _ _ |- _ => apply scanstring_shorter in E
    | E : scan_number _ = Some _ |- _ => apply scan_number_shorter in E
    | E : strip_prefix _ _ = Some _ |- _ =>
        apply strip_prefix_length in E; simpl String.length in E
    | E : skip_ws ?x = _ |- _ =>
        let L := fresh "L" in
        pose proof (skip_ws_length x) as L; rewrite E in L; clear E
    end;
  repeat match goal with
    | H : context [skip_ws ?x] |- _ =>
        lazymatch goal with
        | _ : String.length (skip_ws x) ≤ String.length x |- _ => fail
        | _ => pose proof (skip_ws_length x)
        end
    end;
  simpl String.length in *.

Lemma scan_shorter (fuel : nat) :
  (∀ s v r, scan_once fuel s = Ok v r → String.length r < String.length s) ∧
  (∀ s pairs v r,
     object_members fuel s pairs = Ok v r → String.length r < String.length s) ∧
  (∀ s values v r,
     array_items fuel s values = Ok v r → String.length r < String.length s).
Proof.
  induction fuel as [|fuel (IHs & IHo & IHa)]; [by repeat split|].
  repeat split.
  - intros s v r H. simpl in H.
    repeat case_match; simplify_eq;
      repeat match goal with
        | E : object_members fuel _ _ = Ok _ _ |- _ => apply IHo in E
        | E : array_items fuel _ _ = Ok _ _ |- _ => apply IHa in E
        end;
      scan_lengths; lia.
  - intros s pairs v r H. simpl in H.
    repeat case_match; simplify_eq;
      repeat match goal with
        | E : object_members fuel _ _ = Ok _ _ |- _ => apply IHo in E
        | E : scan_once fuel _ = Ok _ _ |- _ => apply IHs in E
        end;
      scan_lengths; lia.
  - intros s values v r H. simpl in H.
    repeat case_match; simplify_eq;
      repeat match goal with
        | E : array_items fuel _ _ = Ok _ _ |- _ => apply IHa in E
        | E : scan_once fuel _ = Ok _ _ |- _ => apply IHs in E
        end;
      scan_lengths; lia.
Qed.

Lemma scan_fuel (fuel : nat) :
  (∀ s, 2 * String.length s + 1 ≤ fuel → scan_once fuel s ≠ OutOfFuel) ∧
  (∀ s pairs, 2 * String.length s + 1 ≤ fuel → object_members fuel s pairs ≠ OutOfFuel) ∧
  (∀ s values, 2 * String.length s + 2 ≤ fuel → array_items fuel s values ≠ OutOfFuel).
Proof.
  induction fuel as [|fuel (IHs & IHo & IHa)]; [repeat split; intros; lia|].
  pose proof (scan_shorter fuel) as (Ss & So & Sa).
  repeat split.
  - intros s Hf H. simpl in H.
    repeat case_match; simplify_eq;
      match goal with
      | E : scanstring ?x ?a = OutOfFuel |- _ => by destruct (scanstring_result x a)
      | E : object_members fuel _ _ = OutOfFuel |- _ => apply IHo in E; [done|]
      | E : array_items fuel _ _ = OutOfFuel |- _ => apply IHa in E; [done|]
      end;
      scan_lengths; lia.
  - intros s pairs Hf H. simpl in H.
    repeat case_match; simplify_eq;
      repeat match goal with
        | E : scan_once fuel _ = Ok _ _ |- _ => apply Ss in E
        end;
      match goal with
      | E : scanstring ?x ?a = OutOfFuel |- _ => by destruct (scanstring_result x a)
      | E : object_members fuel _ _ = OutOfFuel |- _ => apply IHo in E; [done|]
      | E : scan_once fuel _ = OutOfFuel |- _ => apply IHs in E; [done|]
      end;
      scan_lengths; lia.
  - intros s values Hf H. simpl in H.
    repeat case_match; simplify_eq;
      repeat match goal with
        | E : scan_once fuel _ = Ok _ _ |- _ => apply Ss in E
        end;
      match goal with
      | E : array_items fuel _ _ = OutOfFuel |- _ => apply IHa in E; [done|]
      | E : scan_once fuel _ = OutOfFuel |- _ => apply IHs in E; [done|]
      end;
      scan_lengths; lia.
Qed.

(** The fuel [raw_decode] gives its scan is enough for every text. *)
Lemma raw_decode_fuel (s : string) :
  scan_once (2 * String.length s + 1) s ≠ OutOfFuel.
Proof. by apply scan_fuel. Qed.

(** A successful [raw_decode] consumes at least one character, and no
    more than the text has. *)
Lemma raw_decode_index (s : string) (v : json) (i : nat) :
  raw_decode s = Decoded v i → 1 ≤ i ≤ String.length s.
Proof.
  unfold raw_decode. intros H.
  destruct (scan_once _ s) as [obj rest| | |] eqn:E; simplify_eq.
  apply scan_shorter in E. lia.
Qed.

Lemma raw_decode_advances : advances raw_decode.
Proof. intros s v i H. apply raw_decode_index in H. lia. Qed.

(** ** json_parse: how the loops end *)

Section JsonParseFacts.

Variable decoder : string → decoded.

(** An exception that leaves the [while] loop was raised by the
    decoder and is not a ValueError. *)
Lemma while_buffer_raised (fuel : nat) (buffer : string) (trace : list event) (e : exn) :
  while_buffer decoder fuel buffer = (trace, LoopRaised e) →
  is_ValueError e = false ∧ ∃ s, decoder s = Raised e.
Proof.
  revert buffer trace. induction fuel as [|fuel IH]; intros [|c b] trace H;
    simpl in H; simplify_eq.
  destruct (decoder (String c b)) as [v i|e'] eqn:E.
  - destruct (while_buffer decoder fuel _) as [tr x] eqn:W. simplify_eq. eauto.
  - destruct (is_ValueError e') eqn:V; simplify_eq. eauto.
Qed.

(** With a decoder that consumes something whenever it succeeds, the
    [while] loop ends: the fuel [for_chunk] gives it is enough. *)
Lemma while_buffer_ends (fuel : nat) (buffer : string) :
  advances decoder → String.length buffer ≤ fuel →
  (while_buffer decoder fuel buffer).2 ≠ LoopSpins.
Proof.
  intros Hadv. revert buffer. induction fuel as [|fuel IH]; intros [|c b] Hf;
    simpl in *; try done; try lia.
  destruct (decoder (String c b)) as [v i|e'] eqn:E.
  - destruct (while_buffer decoder fuel _) as [tr x] eqn:W. simpl.
    specialize (IH (slice_from i (String c b))). rewrite W in IH. apply IH.
    rewrite slice_from_length. apply Hadv in E. simpl. lia.
  - by destruct (is_ValueError e').
Qed.

(** An exception that leaves the generator is not a ValueError. *)
Lemma for_chunk_propagates (chunks : list string) (buffer : string)
    (trace : list event) (e : exn) :
  for_chunk decoder chunks buffer = (trace, Propagates e) → is_ValueError e = false.
Proof.
  revert buffer trace. induction chunks as [|chunk chunks IH]; intros buffer trace H;
    simpl in H; [done|].
  destruct chunk as [|c chunk]; [done|].
  destruct (while_buffer decoder _ _) as [tr [b|e'|]] eqn:W; simplify_eq.
  - destruct (for_chunk decoder chunks b) as [tr' x] eqn:F. simplify_eq. eauto.
  - by destruct (while_buffer_raised _ _ _ _ W).
Qed.

(** With a decoder that consumes something whenever it succeeds and
    raises nothing but ValueError, the generator returns. *)
Lemma for_chunk_exhausted (chunks : list string) (buffer : string) :
  advances decoder → raises_only_ValueError decoder →
  (for_chunk decoder chunks buffer).2 = Exhausted.
Proof.
  intros Hadv Hval. revert buffer.
  induction chunks as [|chunk chunks IH]; intros buffer; simpl; [done|].
  destruct chunk as [|c chunk]; [done|].
  destruct (while_buffer decoder _ _) as [tr [b|e'|]] eqn:W; simpl.
  - specialize (IH b). by destruct (for_chunk decoder chunks b).
  - destruct (while_buffer_raised _ _ _ _ W) as (Hne & s & Hs).
    apply Hval in Hs. congruence.
  - exfalso. eapply while_buffer_ends; [done| |by rewrite W]. done.
Qed.

End JsonParseFacts.

(** ** Reading a text file in chunks *)

Lemma reads_empty (fuel buffersize : nat) : reads fuel buffersize EmptyString = [].
Proof. destruct fuel, buffersize; done. Qed.

(** A read of at least the length of the file returns all of it. *)
Lemma reads_whole (buffersize : nat) (text : string) :
  text ≠ EmptyString → String.length text ≤ buffersize →
  reads (String.length text) buffersize text = [text].
Proof.
  intros Hne Hlen. destruct text as [|c text]; [done|].
  change (String.length (String c text)) with (S (String.length text)) in *.
  cbn [reads]. rewrite slice_to_all, slice_from_all, reads_empty by (simpl; lia). done.
Qed.

(** The chunks read are the text, in order. *)
Lemma reads_concat (fuel buffersize : nat) (text : string) :
  0 < buffersize → String.length text ≤ fuel →
  foldr String.append EmptyString (reads fuel buffersize text) = text.
Proof.
  intros Hn. revert text. induction fuel as [|fuel IH]; intros text Hf.
  - destruct text; simpl in *; [done | lia].
  - cbn [reads]. destruct (slice_to buffersize text) as [|c chunk] eqn:E.
    + destruct text, buffersize; simpl in *; try done; exfalso; lia.
    + cbn [foldr]. rewrite IH.
      * rewrite <- E. apply slice_to_from.
      * rewrite slice_from_length. destruct text as [|a text].
        -- by destruct buffersize.
        -- cbn [String.length] in *. lia.
Qed.

Section JsonParseSizes.

Variable decoder : string → decoded.

Lemma json_parse_whole (text : string) (buffersize : nat) :
  text ≠ EmptyString → String.length text ≤ buffersize →
  json_parse decoder text buffersize = json_parse_chunks decoder [text].
Proof. intros. unfold json_parse. by rewrite reads_whole. Qed.

(** What holds of the run for every buffer size from 1 to the length
    of the text holds for every buffer size from 1 on. *)
Lemma json_parse_all_sizes (text : string) (P : list event * completion → Prop) :
  text ≠ EmptyString →
  Forall (λ n, P (json_parse decoder text n)) (seq 1 (String.length text)) →
  ∀ buffersize, 1 ≤ buffersize → P (json_parse decoder text buffersize).
Proof.
  intros Hne Hall n Hn. rewrite Forall_forall in Hall.
  assert (0 < String.length text) by (destruct text; simpl; [done | lia]).
  destruct (decide (n ≤ String.length text)) as [Hle|Hgt].
  - apply Hall. apply elem_of_seq. lia.
  - rewrite json_parse_whole by (done || lia).
    rewrite <- (json_parse_whole text (String.length text)) by done.
    apply Hall. apply elem_of_seq. lia.
Qed.

End JsonParseSizes.

(** ** strip *)


Section Strip.

Variable chars : string.

Lemma lstrip_all_in (s : string) : all_in chars s = true → lstrip chars s = EmptyString.
Proof.
  induction s as [|c s IH]; simpl; [done|]. intros [Hc Hs]%andb_prop.
  rewrite Hc. auto.
Qed.

Lemma rstrip_all_in (s : string) : all_in chars s = true → rstrip chars s = EmptyString.
Proof.
  induction s as [|c s IH]; simpl; [done|]. intros [Hc Hs]%andb_prop.
  rewrite IH, Hc; done.
Qed.

Lemma all_in_append (a b : string) :
  all_in chars (a +:+ b) = all_in chars a && all_in chars b.
Proof.
  induction a as [|c a IH]; [done|]. rewrite append_cons. simpl.
  by rewrite IH, andb_assoc.
Qed.

(** What [lstrip] removes is a run of characters of [chars], and
    what it leaves does not start with one. *)
Lemma lstrip_decompose (s : string) :
  ∃ l, s = l +:+ lstrip chars s ∧ all_in chars l = true
       ∧ starts_in chars (lstrip chars s) = false.
Proof.
  induction s as [|c s (l & Hs & Hl & Hst)]; [by exists EmptyString|].
  simpl. destruct (str_in c chars) eqn:Hc.
  - exists (String c l). rewrite append_cons, <- Hs. simpl. by rewrite Hc.
  - exists EmptyString. simpl. by rewrite Hc.
Qed.

(** What [rstrip] removes is a run of characters of [chars], and
    what it leaves does not end with one. *)
Lemma rstrip_decompose (s : string) :
  ∃ r, s = rstrip chars s +:+ r ∧ all_in chars r = true
       ∧ ends_in chars (rstrip chars s) = false.
Proof.
  induction s as [|c s (r & Hs & Hr & Hen)]; [by exists EmptyString|].
  simpl. destruct (rstrip chars s) as [|d t] eqn:E.
  - rewrite append_nil in Hs. subst r. destruct (str_in c chars) eqn:Hc.
    + exists (String c s). simpl. by rewrite Hc, Hr.
    + exists s. rewrite append_cons, append_nil. simpl. by rewrite Hc.
  - exists r. rewrite append_cons, <- Hs. done.
Qed.

Lemma rstrip_starts_in (s : string) :
  starts_in chars s = false → starts_in chars (rstrip chars s) = false.
Proof.
  destruct s as [|c s]; [done|]. simpl. intros Hc.
  destruct (rstrip chars s); [by rewrite Hc | done].
Qed.

(** [strip] removes a run of characters of [chars] at each end and
    nothing else, and leaves no such character at either end. *)
Lemma strip_decompose (s : string) :
  ∃ l r, s = l +:+ strip chars s +:+ r
         ∧ all_in chars l = true ∧ all_in chars r = true
         ∧ starts_in chars (strip chars s) = false
         ∧ ends_in chars (strip chars s) = false.
Proof.
  unfold strip.
  destruct (lstrip_decompose s) as (l & Hs & Hl & Hst).
  destruct (rstrip_decompose (lstrip chars s)) as (r & Hs' & Hr & Hen).
  exists l, r. rewrite <- Hs'. repeat split; auto using rstrip_starts_in.
Qed.

(** A text with no character of [chars] at either end is left as it
    is. *)
Lemma rstrip_fixed (s : string) : ends_in chars s = false → rstrip chars s = s.
Proof.
  induction s as [|c s IH]; [done|]. simpl. destruct s as [|d s].
  - simpl. by intros ->.
  - intros H. rewrite IH by done. done.
Qed.

Lemma strip_fixed (s : string) :
  starts_in chars s = false → ends_in chars s = false → strip chars s = s.
Proof.
  intros Hst Hen. unfold strip.
  assert (lstrip chars s = s) as ->; [|by apply rstrip_fixed].
  destruct s as [|c s]; [done|]. simpl in *. by rewrite Hst.
Qed.

(** Characters of [chars] at the end of a text are lost on [rstrip]
    and on [strip], whatever comes before them. *)
Lemma rstrip_append_all_in (s w : string) :
  all_in chars w = true → rstrip chars (s +:+ w) = rstrip chars s.
Proof.
  intros Hw. induction s as [|c s IH].
  - rewrite append_nil. by apply rstrip_all_in.
  - rewrite append_cons. simpl. by rewrite IH.
Qed.

Lemma lstrip_append (s w : string) :
  lstrip chars (s +:+ w) =
    match lstrip chars s with
    | EmptyString => lstrip chars w
    | t => t +:+ w
    end.
Proof.
  induction s as [|c s IH]; [done|]. rewrite append_cons. simpl.
  destruct (str_in c chars); [done|]. by rewrite append_cons.
Qed.

Lemma strip_append_all_in (s w : string) :
  all_in chars w = true → strip chars (s +:+ w) = strip chars s.
Proof.
  intros Hw. unfold strip. rewrite lstrip_append.
  destruct (lstrip chars s) as [|c t] eqn:E.
  - by rewrite lstrip_all_in.
  - by rewrite rstrip_append_all_in.
Qed.

End Strip.

(** [json_parse] strips the space and the newline, and no other
    character. *)
Lemma str_in_SPACE_NEWLINE (c : ascii) :
  str_in c SPACE_NEWLINE = true ↔ c = " "%char ∨ c = LF.
Proof.
  unfold SPACE_NEWLINE. simpl. rewrite orb_false_r, orb_true_iff.
  by rewrite !Ascii.eqb_eq.
Qed.

(** ** json_parse on the sample streams *)

(** Proves a property of the runs at every buffer size from its instances
    at the sizes up to the length of the text, each by evaluation. *)
Ltac by_each_size :=
  match goal with
  | |- Forall _ ?sizes =>
      let l := eval vm_compute in sizes in change sizes with l
  end;
  repeat (apply Forall_cons; split; [vm_compute; done|]); by apply Forall_nil.

Ltac by_all_sizes :=
  let n := fresh "n" in
  let Hn := fresh "Hn" in
  intros n Hn;
  match goal with
  | |- context [json_parse ?decoder ?text n] => pattern (json_parse decoder text n)
  end;
  revert n Hn; apply json_parse_all_sizes; [done | by_each_size].

(** C1. Two well-formed values, serialized one after the other with a
    space between them and read in one chunk (the default buffer size is
    larger than the text): the generator yields the first value only.
    After the first value the buffer starts with the separating space,
    on which the decoder raises, and no further chunk comes to have it
    stripped. *)
Theorem round_trip_one_chunk_loses_value :
  two_objects = dq "{'a':1}" +:+ " " +:+ dq "{'b':2}"
  ∧ raw_decode (dq "{'a':1}") = Decoded obj_a 7
  ∧ raw_decode (dq "{'b':2}") = Decoded obj_b 7
  ∧ json_parse raw_decode two_objects default_buffersize
    = ([Attempt two_objects; Yield obj_a; Attempt (dq " {'b':2}")], Exhausted).
Proof. repeat split; vm_compute; done. Qed.

(** C3. The values yielded depend on the buffer size: read one
    character at a time the stream [two_objects] gives both values, read
    in one chunk of its full length it gives the first only. *)
Theorem chunk_size_changes_values :
  String.length two_objects = 15
  ∧ values_of (json_parse raw_decode two_objects 1).1 = [obj_a; obj_b]
  ∧ values_of (json_parse raw_decode two_objects 15).1 = [obj_a].
Proof. repeat split; vm_compute; done. Qed.

(** C4. On the stream with newlines and spaces between the two objects
    and a newline at the end, the generator yields both objects for the
    buffer sizes 1 to 19 and the first object only when the whole stream
    (20 characters) comes in one chunk, as it does with the default
    buffer size. *)
Theorem trailing_whitespace_depends_on_chunking :
  String.length trailing_whitespace_stream = 20
  ∧ Forall (λ n, values_of (json_parse raw_decode trailing_whitespace_stream n).1
                 = [obj_a; obj_b]) (seq 1 19)
  ∧ json_parse raw_decode trailing_whitespace_stream default_buffersize
    = ([Attempt (dq "{'a':1}" +:+ NEWLINE +:+ NEWLINE +:+ "   " +:+ dq "{'b':2}");
        Yield obj_a;
        Attempt (NEWLINE +:+ NEWLINE +:+ "   " +:+ dq "{'b':2}")], Exhausted).
Proof.
  split; [done|]. split; [by_each_size | vm_compute; done].
Qed.

(** C5. The decode attempts on [two_objects] read in one chunk: the
    second attempt, made right after the first value was cut off the
    buffer, is given a buffer that starts with a space. *)
Theorem decode_attempt_with_leading_space :
  attempts_of (json_parse raw_decode two_objects default_buffersize).1
    = [two_objects; dq " {'b':2}"]
  ∧ starts_in SPACE_NEWLINE (dq " {'b':2}") = true.
Proof. split; vm_compute; done. Qed.

(** C2, as the claim states it, fails: on [malformed_stream] the
    generator yields the first value and then returns; no exception
    reaches the consumer. *)
Lemma malformed_stream_raises_nothing :
  ∃ trace,
    json_parse raw_decode malformed_stream default_buffersize = (trace, Exhausted)
    ∧ values_of trace = [obj_a]
    ∧ ¬ ∃ e, (json_parse raw_decode malformed_stream default_buffersize).2 = Propagates e.
Proof.
  eexists. split; [vm_compute; reflexivity|]. split; [done|].
  intros [e He]. vm_compute in He. done.
Qed.

(** C2, amended. On [malformed_stream], for every buffer size from 1 on,
    the generator yields exactly the first value and then returns: the
    decoder does raise JSONDecodeError on the text that follows, and
    [json_parse] catches it as it catches every ValueError of the
    decoder: whatever the decoder, a ValueError it raises on the buffer
    ends the [while] loop with the buffer kept and nothing raised.  The
    later value is never yielded. *)
Theorem malformed_stream_ends_silently :
  (∀ buffersize, 1 ≤ buffersize →
     values_of (json_parse raw_decode malformed_stream buffersize).1 = [obj_a]
     ∧ (json_parse raw_decode malformed_stream buffersize).2 = Exhausted)
  ∧ raw_decode (dq "not-json {'b':2}") = Raised (JSONDecodeError "Expecting value")
  ∧ (∀ decoder fuel buffer e,
       buffer ≠ EmptyString → decoder buffer = Raised e → is_ValueError e = true →
       while_buffer decoder (S fuel) buffer = ([Attempt buffer], LoopDone buffer)).
Proof.
  split; [|split].
  - by_all_sizes.
  - vm_compute. done.
  - intros decoder fuel [|c buffer] e Hne Hraise Hval; [done|].
    cbn [while_buffer]. by rewrite Hraise, Hval.
Qed.

Lemma malformed_stream_ends_silently_witness :
  values_of (json_parse raw_decode malformed_stream 3).1 = [obj_a]
  ∧ (json_parse raw_decode malformed_stream 3).2 = Exhausted.
Proof. apply (proj1 malformed_stream_ends_silently 3). lia. Defined.

(** C6. The source is exhausted while the buffer holds an incomplete
    document.  On [fragment_after_two], two complete values and the
    start of a third, read in one chunk (any buffer size from the length
    of the text on, the default among them), the generator yields the
    first value only: the second value is complete and comes before the
    fragment, but the buffer left after the first value starts with the
    space between them, the decoder raises on it, and no chunk follows.
    With a buffer size from 1 to 20 both values are yielded.  In every
    case the fragment is dropped and the generator returns.  The same
    text with newlines for the spaces loses the second value as well.
    - On [truncated_stream], for every buffer size from 1 on, exactly the
      value [obj_a] is yielded and the generator returns.
    - An empty file yields nothing and the generator returns. *)
Theorem dropped_tail_loses_complete_value :
  (∀ buffersize, String.length fragment_after_two ≤ buffersize →
     json_parse raw_decode fragment_after_two buffersize
     = ([Attempt fragment_after_two; Yield obj_a; Attempt (dq " {'b':2} {'c':")],
        Exhausted))
  ∧ values_of (json_parse raw_decode fragment_after_two default_buffersize).1 = [obj_a]
  ∧ json_parse raw_decode
      (dq "{'a':1}" +:+ NEWLINE +:+ dq "{'b':2}" +:+ NEWLINE +:+ dq "{'c':")
      default_buffersize
    = ([Attempt (dq "{'a':1}" +:+ NEWLINE +:+ dq "{'b':2}" +:+ NEWLINE +:+ dq "{'c':");
        Yield obj_a;
        Attempt (NEWLINE +:+ dq "{'b':2}" +:+ NEWLINE +:+ dq "{'c':")],
       Exhausted)
  ∧ (∀ buffersize, 1 ≤ buffersize < String.length fragment_after_two →
       values_of (json_parse raw_decode fragment_after_two buffersize).1 = [obj_a; obj_b]
       ∧ (json_parse raw_decode fragment_after_two buffersize).2 = Exhausted)
  ∧ (∀ buffersize, 1 ≤ buffersize →
       values_of (json_parse raw_decode truncated_stream buffersize).1 = [obj_a]
       ∧ (json_parse raw_decode truncated_stream buffersize).2 = Exhausted)
  ∧ (∀ decoder buffersize,
       json_parse decoder EmptyString buffersize = ([], Exhausted)).
Proof.
  split; [|split; [|split; [|split; [|split]]]].
  - intros n Hn. rewrite json_parse_whole by done. vm_compute. done.
  - rewrite json_parse_whole by (done || vm_compute; lia). vm_compute. done.
  - vm_compute. done.
  - intros n Hn.
    assert (n ∈ seq 1 (String.length fragment_after_two - 1)) as Hin
      by (apply elem_of_seq; lia).
    revert n Hin Hn. refine (proj1 (Forall_forall _ _) _).
    match goal with
    | |- Forall _ ?sizes => let l := eval vm_compute in sizes in change sizes with l
    end.
    repeat (apply Forall_cons; split; [intros _; vm_compute; done|]). by apply Forall_nil.
  - by_all_sizes.
  - done.
Qed.

Section ChunkEnds.

Variable decoder : string → decoded.

(** A chunk that ends with spaces and newlines is treated as the chunk
    without them. *)
Lemma for_chunk_trailing (buffer chunk w : string) (chunks : list string) :
  chunk ≠ EmptyString → all_in SPACE_NEWLINE w = true →
  for_chunk decoder ((chunk +:+ w) :: chunks) buffer
  = for_chunk decoder (chunk :: chunks) buffer.
Proof.
  intros Hne Hw. destruct chunk as [|c chunk]; [done|].
  rewrite append_cons. cbn [for_chunk].
  rewrite <- append_cons, <- append_assoc, strip_append_all_in by done. done.
Qed.

(** The first decode attempt after a chunk is appended is made on the
    stripped buffer; there is none when that is empty. *)
Lemma for_chunk_first_attempt (buffer chunk : string) :
  chunk ≠ EmptyString →
  head (attempts_of (for_chunk decoder [chunk] buffer).1)
  = match strip SPACE_NEWLINE (buffer +:+ chunk) with
    | EmptyString => None
    | stripped => Some stripped
    end.
Proof.
  intros Hne. destruct chunk as [|c chunk]; [done|]. cbn [for_chunk].
  destruct (strip SPACE_NEWLINE (buffer +:+ String c chunk)) as [|x b]; [done|].
  cbn [String.length while_buffer].
  destruct (decoder (String x b)) as [v i|e].
  - by destruct (while_buffer decoder _ _) as [tr [| |]].
  - by destruct (is_ValueError e).
Qed.

End ChunkEnds.

(** C9. After appending a chunk, and before any decode attempt,
    [json_parse] strips the buffer at both ends of spaces and newlines,
    and of nothing else.
    - What the strip removes is a run of spaces and newlines at each
      end, and what it leaves has neither at either end.
    - Tabs and carriage returns stay: a text that has neither a space
      nor a newline at its ends is left as it is.
    - The first decode attempt after a chunk is made on the stripped
      buffer.
    - Spaces and newlines at the end of a chunk never reach the buffer:
      the buffer is what it would be without them, and so is the rest of
      the run when the chunk has other characters before them.
    - The string value of [split_string_stream] has a space in it; read
      in chunks of 8 characters, the first chunk ends with that space
      and the value yielded has lost it. *)
Theorem strip_at_both_ends_of_buffer :
  (∀ s, ∃ l r,
     s = l +:+ strip SPACE_NEWLINE s +:+ r
     ∧ all_in SPACE_NEWLINE l = true ∧ all_in SPACE_NEWLINE r = true
     ∧ starts_in SPACE_NEWLINE (strip SPACE_NEWLINE s) = false
     ∧ ends_in SPACE_NEWLINE (strip SPACE_NEWLINE s) = false)
  ∧ (∀ c, str_in c SPACE_NEWLINE = true ↔ c = " "%char ∨ c = LF)
  ∧ (∀ s, starts_in SPACE_NEWLINE s = false → ends_in SPACE_NEWLINE s = false →
          strip SPACE_NEWLINE s = s)
  ∧ strip SPACE_NEWLINE (String TAB (String "x" (String CR EmptyString)))
    = String TAB (String "x" (String CR EmptyString))
  ∧ (∀ decoder buffer chunk,
       chunk ≠ EmptyString →
       head (attempts_of (for_chunk decoder [chunk] buffer).1)
       = match strip SPACE_NEWLINE (buffer +:+ chunk) with
         | EmptyString => None
         | stripped => Some stripped
         end)
  ∧ (∀ buffer chunk w,
       all_in SPACE_NEWLINE w = true →
       strip SPACE_NEWLINE (buffer +:+ (chunk +:+ w))
       = strip SPACE_NEWLINE (buffer +:+ chunk))
  ∧ (∀ decoder buffer chunk w chunks,
       chunk ≠ EmptyString → all_in SPACE_NEWLINE w = true →
       for_chunk decoder ((chunk +:+ w) :: chunks) buffer
       = for_chunk decoder (chunk :: chunks) buffer)
  ∧ reads (String.length split_string_stream) 8 split_string_stream
    = [dq "{'k':'a "; dq "b'}"]
  ∧ raw_decode split_string_stream
    = Decoded (JObject [(str "k", JString (str "a b"))]) 11
  ∧ json_parse raw_decode split_string_stream 8
    = ([Attempt (dq "{'k':'a"); Attempt (dq "{'k':'ab'}");
        Yield (JObject [(str "k", JString (str "ab"))])], Exhausted).
Proof.
  repeat split.
  - apply strip_decompose.
  - by intros ?%str_in_SPACE_NEWLINE.
  - by intros ?%str_in_SPACE_NEWLINE.
  - apply strip_fixed.
  - apply for_chunk_first_attempt.
  - intros buffer chunk w Hw. by rewrite <- append_assoc, strip_append_all_in.
  - apply for_chunk_trailing.
Qed.

Lemma strip_at_both_ends_of_buffer_witness :
  for_chunk raw_decode [dq "{'k':'a " +:+ " " +:+ NEWLINE; dq "b'}"] EmptyString
  = for_chunk raw_decode [dq "{'k':'a "; dq "b'}"] EmptyString.
Proof.
  apply (proj1 (proj2 (proj2 (proj2 (proj2 (proj2 (proj2
           strip_at_both_ends_of_buffer))))))
         raw_decode EmptyString (dq "{'k':'a ") (" " +:+ NEWLINE) [dq "b'}"]).
  - done.
  - reflexivity.
Defined.

(** ** read_runs_and_results_file: the status column *)

(** C8. The status column goes through a lookup that is total and fixed:
    the three recognized literals have their codes, every text that
    contains none of them gets the code -1, and no other code exists;
    column 13 is among the columns kept, and its field is converted
    through this lookup without raising, whatever the field is. *)
Theorem status_column_lookup :
  map_run_result "TIMEOUT" = 0%Z
  ∧ map_run_result "UNSAT" = 1%Z
  ∧ map_run_result "SAT" = 2%Z
  ∧ (∀ res, contains "TIMEOUT" res = false → contains "UNSAT" res = false →
            contains "SAT" res = false → map_run_result res = (-1)%Z)
  ∧ map_run_result "CRASHED" = (-1)%Z
  ∧ (∀ res, map_run_result res ∈ [0; 1; 2; -1]%Z)
  ∧ 13 ∈ usecols
  ∧ (∀ (double : Type) (double_of_int : Z → double)
       (default_converter : string → py double) (field : string),
       convert_field double double_of_int default_converter 13 field
       = Return (double_of_int (map_run_result field))).
Proof.
  repeat split; try done.
  - intros res H1 H2 H3. unfold map_run_result. by rewrite H1, H2, H3.
  - intros res. unfold map_run_result. repeat case_match; set_solver.
  - unfold usecols. set_solver.
Qed.

Lemma status_column_lookup_witness : map_run_result "ABORT" = (-1)%Z.
Proof.
  apply (proj1 (proj2 (proj2 (proj2 status_column_lookup))) "ABORT"); reflexivity.
Defined.

(** ** read_instance_features_file *)

(** C7. On every file with a header line and at least one more line,
    the function raises NameError: the name [join] it calls is bound
    nowhere.  This holds whatever numpy does and whatever [join] was
    meant to be. *)
Theorem instance_features_raises_NameError
    (ndarray : Type) (np_array : list string → py ndarray)
    (join : list string → py (list string))
    (text header line : string) (lines : list string) :
  readlines text = header :: line :: lines →
  read_instance_features_file ndarray np_array join text = Raise (NameError "join").
Proof. intros H. unfold read_instance_features_file. by rewrite H. Qed.

Lemma instance_features_raises_NameError_witness :
  read_instance_features_file unit (λ _, Return ()) (λ l, Return l) features_file
  = Raise (NameError "join").
Proof.
  apply (instance_features_raises_NameError unit (λ _, Return ()) (λ l, Return l)
           features_file ("instance,f1,f2" +:+ NEWLINE) ("inst1,1.0,2.0" +:+ NEWLINE) []).
  reflexivity.
Defined.

(** ** read_validationCallStrings_file *)

Lemma range_by_2_from (start len : nat) :
  Nat.even start = true →
  filter (λ i, Nat.even i = true) (seq start (S (S len)))
  = start :: filter (λ i, Nat.even i = true) (seq (S (S start)) len).
Proof.
  intros He. cbn [seq]. rewrite filter_cons_True by done.
  rewrite filter_cons_False; [done|].
  rewrite Nat.even_succ, <- Nat.negb_even, He. done.
Qed.

(** The loop over the even indices, from any even position on: it
    returns the pairs of the remaining tokens, entered one after the
    other, when their number is even, and raises IndexError when it is
    odd. *)
Lemma fill_tmp_dict_from (n : nat) :
  ∀ (pre rest : list string) (d : gmap string string),
    length rest ≤ n → Nat.even (length pre) = true →
    fill_tmp_dict (pre ++ rest)
      (filter (λ i, Nat.even i = true) (seq (length pre) (length rest))) d
    = if Nat.even (length rest)
      then Return (foldl (λ d kv, <[kv.1 := kv.2]> d) d (flag_value_pairs rest))
      else Raise (IndexError "list index out of range").
Proof.
  induction n as [|n IH]; intros pre rest d Hn He;
    destruct rest as [|flag [|value rest]];
    try done; try (exfalso; simpl in Hn; lia).
  - cbn [length seq]. rewrite filter_cons_True by done. cbn [filter list_filter fill_tmp_dict].
    unfold getitem. rewrite lookup_ge_None_2; [done|]. rewrite length_app. simpl. lia.
  - cbn [length]. rewrite range_by_2_from by done. cbn [fill_tmp_dict].
    unfold getitem.
    replace (pre ++ flag :: value :: rest) with ((pre ++ [flag; value]) ++ rest)
      by (by rewrite <- app_assoc).
    rewrite (lookup_app_l _ rest) by (rewrite length_app; simpl; lia).
    rewrite (lookup_app_r pre) by lia.
    replace (length pre + 1 - length pre) with 1 by lia. cbn [lookup list_lookup py_bind].
    rewrite (lookup_app_l _ rest) by (rewrite length_app; simpl; lia).
    rewrite (lookup_app_r pre) by lia.
    replace (length pre - length pre) with 0 by lia. cbn [lookup list_lookup py_bind].
    replace (S (S (length pre))) with (length (pre ++ [flag; value]))
      by (rewrite length_app; simpl; lia).
    rewrite IH; [done | simpl in Hn; lia |].
    rewrite length_app. cbn [length]. by rewrite Nat.add_comm.
Qed.

Lemma foldl_insert_list_to_map (pairs : list (string * string)) :
  foldl (λ (d : gmap string string) kv, <[kv.1 := kv.2]> d) ∅ pairs
  = list_to_map (reverse pairs).
Proof.
  induction pairs as [|kv pairs IH] using rev_ind; [done|].
  by rewrite foldl_app, reverse_app, IH.
Qed.

(** The dictionary of one line: the pairs of its tokens when the line
    has a configuration field with an even number of tokens, IndexError
    otherwise. *)
Lemma line_dict_spec (line : string) :
  line_dict line
  = match config_tokens line with
    | Some tokens =>
        if Nat.even (length tokens) then Return (dict_of_flag_values tokens)
        else Raise (IndexError "list index out of range")
    | None => Raise (IndexError "list index out of range")
    end.
Proof.
  unfold line_dict, config_tokens, getitem, range_by_2.
  destruct (split "," line !! 1) as [field|]; [|done]. cbn [py_bind].
  set (tokens := split " " (strip (String DQUOTE EmptyString) field)).
  pose proof (fill_tmp_dict_from (length tokens) [] tokens ∅ (le_n _) eq_refl) as H.
  cbn [app length] in H. rewrite H. unfold dict_of_flag_values. by rewrite foldl_insert_list_to_map.
Qed.

Lemma lines_dicts_even (lines : list string) (acc : list (gmap string string)) :
  Forall (λ line, ∃ tokens, config_tokens line = Some tokens
                            ∧ Nat.even (length tokens) = true) lines →
  ∃ dicts, lines_dicts lines acc = Return (acc ++ dicts)
           ∧ Forall2 (λ line dict, ∃ tokens, config_tokens line = Some tokens
                                             ∧ dict = dict_of_flag_values tokens)
               lines dicts.
Proof.
  intros Hall. revert acc. induction Hall as [|line lines (tokens & Ht & He) _ IH]; intros acc.
  - exists []. by rewrite app_nil_r.
  - cbn [lines_dicts]. rewrite line_dict_spec, Ht, He. cbn [py_bind].
    destruct (IH (acc ++ [dict_of_flag_values tokens])) as (dicts & Hd & Hf).
    exists (dict_of_flag_values tokens :: dicts). rewrite Hd, <- app_assoc.
    split; [done|]. constructor; eauto.
Qed.

Lemma lines_dicts_odd (lines : list string) (acc : list (gmap string string))
    (line : string) (tokens : list string) :
  line ∈ lines → config_tokens line = Some tokens → Nat.even (length tokens) = false →
  lines_dicts lines acc = Raise (IndexError "list index out of range").
Proof.
  intros Hin Ht Ho. revert acc. induction lines as [|l lines IH]; intros acc.
  - by apply elem_of_nil in Hin.
  - cbn [lines_dicts]. rewrite line_dict_spec.
    apply elem_of_cons in Hin as [<-|Hin].
    + by rewrite Ht, Ho.
    + destruct (config_tokens l) as [ts|]; [|done].
      destruct (Nat.even (length ts)); [|done]. cbn [py_bind]. by apply IH.
Qed.

(** C10. The function needs every line after the header to have a
    configuration field with an even number of tokens.
    - Then it returns one dictionary per such line, in order: the
      dictionary of the line's flag and value pairs.
    - In that dictionary every entry is one of the pairs and every flag
      has an entry; when no flag occurs twice, the entries are exactly
      the pairs.
    - When some line after the header has a field with an odd number of
      tokens, the function raises IndexError instead of returning. *)
Theorem validationCallStrings_needs_even_tokens :
  (∀ text,
     Forall (λ line, ∃ tokens, config_tokens line = Some tokens
                               ∧ Nat.even (length tokens) = true)
       (drop 1 (readlines text)) →
     ∃ dicts,
       read_validationCallStrings_file text = Return dicts
       ∧ Forall2 (λ line dict, ∃ tokens, config_tokens line = Some tokens
                                         ∧ dict = dict_of_flag_values tokens)
           (drop 1 (readlines text)) dicts)
  ∧ (∀ tokens flag value,
       dict_of_flag_values tokens !! flag = Some value →
       (flag, value) ∈ flag_value_pairs tokens)
  ∧ (∀ tokens flag value,
       (flag, value) ∈ flag_value_pairs tokens →
       is_Some (dict_of_flag_values tokens !! flag))
  ∧ (∀ tokens flag value,
       NoDup (flag_value_pairs tokens).*1 →
       (flag, value) ∈ flag_value_pairs tokens →
       dict_of_flag_values tokens !! flag = Some value)
  ∧ (∀ text line tokens,
       line ∈ drop 1 (readlines text) →
       config_tokens line = Some tokens → Nat.even (length tokens) = false →
       read_validationCallStrings_file text
       = Raise (IndexError "list index out of range"))
  ∧ read_validationCallStrings_file call_strings_even
    = Return [ {[ "alpha" := "0.5"; "beta" := "x" ]} ]
  ∧ read_validationCallStrings_file call_strings_odd
    = Raise (IndexError "list index out of range").
Proof.
  split; [|split; [|split; [|split; [|split; [|split]]]]].
  - intros text Hall. apply (lines_dicts_even _ []) in Hall. done.
  - intros tokens flag value H. unfold dict_of_flag_values in H.
    apply elem_of_list_to_map_2 in H. by rewrite elem_of_reverse in H.
  - intros tokens flag value H. unfold dict_of_flag_values.
    apply not_eq_None_Some. intros Hn%not_elem_of_list_to_map_2.
    apply Hn. rewrite fmap_reverse, elem_of_reverse.
    by apply (list_elem_of_fmap_2 fst) in H.
  - intros tokens flag value Hnd H. unfold dict_of_flag_values.
    apply elem_of_list_to_map_1.
    + by rewrite fmap_reverse, reverse_Permutation.
    + by rewrite elem_of_reverse.
  - intros text line tokens Hin Ht Ho. by eapply lines_dicts_odd.
  - vm_compute. done.
  - vm_compute. done.
Qed.

Lemma validationCallStrings_needs_even_tokens_witness :
  read_validationCallStrings_file call_strings_odd
  = Raise (IndexError "list index out of range").
Proof.
  apply (proj1 (proj2 (proj2 (proj2 (proj2 validationCallStrings_needs_even_tokens))))
           call_strings_odd
           ("1," +:+ QUOTE +:+ "-alpha '0.5' -beta" +:+ QUOTE +:+ ",0" +:+ NEWLINE)
           ["-alpha"; "'0.5'"; "-beta"]).
  - vm_compute. set_solver.
  - reflexivity.
  - reflexivity.
Defined.

(** ** json_parse: properties of every run *)

Lemma values_of_app (t1 t2 : list event) :
  values_of (t1 ++ t2) = values_of t1 ++ values_of t2.
Proof. apply omap_app. Qed.

Lemma attempts_of_app (t1 t2 : list event) :
  attempts_of (t1 ++ t2) = attempts_of t1 ++ attempts_of t2.
Proof. apply omap_app. Qed.

Lemma slice_from_append (a b : string) : slice_from (String.length a) (a +:+ b) = b.
Proof. induction a as [|c a IH]; [done|]. rewrite append_cons. simpl. apply IH. Qed.

Section RunFacts.

Variable decoder : string → decoded.

(** The [while] loop is left, towards the next read, only with an empty
    buffer or with one on which the decoder has just raised a
    ValueError. *)
Lemma while_buffer_done (fuel : nat) (buffer b : string) (trace : list event) :
  while_buffer decoder fuel buffer = (trace, LoopDone b) →
  b = EmptyString ∨ ∃ e, decoder b = Raised e ∧ is_ValueError e = true.
Proof.
  revert buffer trace. induction fuel as [|fuel IH]; intros [|c buf] trace H;
    simpl in H; simplify_eq; auto.
  destruct (decoder (String c buf)) as [v i|e] eqn:E.
  - destruct (while_buffer decoder fuel _) as [tr x] eqn:W. simplify_eq. eauto.
  - destruct (is_ValueError e) eqn:V; simplify_eq. eauto.
Qed.

Lemma while_buffer_attempts (fuel : nat) (buffer : string) :
  length (values_of (while_buffer decoder fuel buffer).1)
  ≤ length (attempts_of (while_buffer decoder fuel buffer).1)
  ≤ length (values_of (while_buffer decoder fuel buffer).1) + 1.
Proof.
  revert buffer. induction fuel as [|fuel IH]; intros [|c buf]; simpl; try lia.
  destruct (decoder (String c buf)) as [v i|e] eqn:E.
  - specialize (IH (slice_from i (String c buf))).
    destruct (while_buffer decoder fuel _) as [tr x]. simpl in *. lia.
  - destruct (is_ValueError e); simpl; lia.
Qed.

Lemma attempts_explain_app_aux (n : nat) :
  ∀ t1 t2, length t1 ≤ n →
    attempts_explain decoder t1 → attempts_explain decoder t2 →
    attempts_explain decoder (t1 ++ t2).
Proof.
  induction n as [|n IH]; intros t1 t2 Hn H1 H2.
  - destruct t1; [done | simpl in Hn; lia].
  - destruct t1 as [|[b|v] t1]; [done| |done].
    destruct t1 as [|[b'|v'] t1].
    + destruct H1 as [H1 _]. destruct t2 as [|[b2|v2] t2]; [done| |].
      * simpl. split; [done|]. apply H2.
      * simpl in H2. done.
    + destruct H1 as [H1 H1']. cbn [app attempts_explain]. split; [done|].
      apply (IH (Attempt b' :: t1) t2); [simpl in *; lia | done | done].
    + destruct H1 as [H1 H1']. cbn [app attempts_explain]. split; [done|].
      apply IH; [simpl in *; lia | done | done].
Qed.

Lemma attempts_explain_app (t1 t2 : list event) :
  attempts_explain decoder t1 → attempts_explain decoder t2 →
  attempts_explain decoder (t1 ++ t2).
Proof. by apply (attempts_explain_app_aux (length t1)). Qed.

Lemma while_buffer_explained (fuel : nat) (buffer : string) :
  attempts_explain decoder (while_buffer decoder fuel buffer).1.
Proof.
  revert buffer. induction fuel as [|fuel IH]; intros [|c buf]; simpl; try done.
  destruct (decoder (String c buf)) as [v i|e] eqn:E.
  - specialize (IH (slice_from i (String c buf))).
    destruct (while_buffer decoder fuel _) as [tr x]. simpl in *. eauto.
  - destruct (is_ValueError e); simpl; eauto.
Qed.

(** An exception leaves the [while] loop right after the attempt on
    which the decoder raised it. *)
Lemma while_buffer_raised_last (fuel : nat) (buffer : string) (trace : list event) (e : exn) :
  while_buffer decoder fuel buffer = (trace, LoopRaised e) →
  ∃ s, last trace = Some (Attempt s) ∧ decoder s = Raised e.
Proof.
  revert buffer trace. induction fuel as [|fuel IH]; intros [|c buf] trace H;
    simpl in H; simplify_eq.
  destruct (decoder (String c buf)) as [v i|e'] eqn:E.
  - destruct (while_buffer decoder fuel _) as [tr x] eqn:W. simplify_eq.
    destruct (IH _ _ W) as (s & Hl & Hs). exists s. split; [|done].
    destruct tr; [done|]. done.
  - destruct (is_ValueError e') eqn:V; simplify_eq. eauto.
Qed.

(** The loop on a buffer of packed documents yields all their values
    and leaves the buffer empty. *)
Lemma while_buffer_packed (docs : list string) (vals : list json) (fuel : nat) :
  packed decoder docs vals → String.length (concat_str docs) ≤ fuel →
  ∃ trace, while_buffer decoder fuel (concat_str docs) = (trace, LoopDone EmptyString)
           ∧ values_of trace = vals.
Proof.
  revert vals fuel. induction docs as [|doc docs IH]; intros [|v vals] fuel Hp Hf;
    try done.
  - exists []. by destruct fuel.
  - destruct Hp as (Hne & Hd & Hp). cbn [concat_str foldr] in *.
    fold (concat_str docs) in *. rewrite length_append in Hf.
    destruct doc as [|c doc]; [done|]. rewrite append_cons in *.
    destruct fuel as [|fuel]; [simpl in Hf; lia|].
    cbn [while_buffer]. rewrite Hd. rewrite <- append_cons, slice_from_append.
    destruct (IH vals fuel Hp) as (tr & Hw & Hv); [simpl in Hf; lia|].
    rewrite Hw. eexists. split; [done|]. simpl. by rewrite Hv.
Qed.

End RunFacts.

(** X1. In every run, each value yielded is the one the decoder returned
    on the buffer of the decode attempt just before it, and every
    attempt that yields nothing is one on which the decoder raised. *)
Theorem yields_follow_their_decode (decoder : string → decoded) (chunks : list string) :
  attempts_explain decoder (json_parse_chunks decoder chunks).1.
Proof.
  unfold json_parse_chunks. generalize EmptyString.
  induction chunks as [|chunk chunks IH]; intros buffer; [done|].
  destruct chunk as [|c chunk]; [done|]. cbn [for_chunk].
  pose proof (while_buffer_explained decoder
    (String.length (strip SPACE_NEWLINE (buffer +:+ String c chunk)))
    (strip SPACE_NEWLINE (buffer +:+ String c chunk))) as Hw.
  destruct (while_buffer decoder _ _) as [tr [b|e|]]; [|done|done].
  specialize (IH b). destruct (for_chunk decoder chunks b) as [tr' x].
  by apply attempts_explain_app.
Qed.

(** X2. The decoder is called once for each value yielded and at most
    once more for each chunk read. *)
Theorem decoder_calls_bounded (decoder : string → decoded) (chunks : list string) :
  length (values_of (json_parse_chunks decoder chunks).1)
  ≤ length (attempts_of (json_parse_chunks decoder chunks).1)
  ≤ length (values_of (json_parse_chunks decoder chunks).1) + length chunks.
Proof.
  unfold json_parse_chunks. generalize EmptyString.
  induction chunks as [|chunk chunks IH]; intros buffer; [simpl; lia|].
  destruct chunk as [|c chunk]; [simpl; lia|]. cbn [for_chunk].
  pose proof (while_buffer_attempts decoder
    (String.length (strip SPACE_NEWLINE (buffer +:+ String c chunk)))
    (strip SPACE_NEWLINE (buffer +:+ String c chunk))) as Hw.
  destruct (while_buffer decoder _ _) as [tr [b|e|]]; simpl in *; try lia.
  specialize (IH b). destruct (for_chunk decoder chunks b) as [tr' x]. simpl in *.
  rewrite values_of_app, attempts_of_app, !length_app. lia.
Qed.

(** X3. The [while] loop gives way to the next read only when the
    buffer is empty or the decoder has just raised a ValueError on
    it: no chunk is read while the decoder can still return a value
    from the front of the buffer. *)
Theorem next_read_only_when_stuck (decoder : string → decoded) (fuel : nat)
    (buffer left : string) (trace : list event) :
  while_buffer decoder fuel buffer = (trace, LoopDone left) →
  left = EmptyString ∨ ∃ e, decoder left = Raised e ∧ is_ValueError e = true.
Proof. apply while_buffer_done. Qed.

Lemma next_read_only_when_stuck_witness :
  dq " {'b':2}" = EmptyString
  ∨ ∃ e, raw_decode (dq " {'b':2}") = Raised e ∧ is_ValueError e = true.
Proof.
  apply (next_read_only_when_stuck raw_decode 15 two_objects (dq " {'b':2}")
           [Attempt two_objects; Yield obj_a; Attempt (dq " {'b':2}")]).
  reflexivity.
Defined.

(** X4. When every chunk, stripped of the spaces and newlines at its
    ends, is a run of documents with nothing between them, each of which
    the decoder decodes in full, the generator yields the values of all
    the documents, in order, and returns. *)
Theorem packed_chunks_all_yielded (decoder : string → decoded)
    (chunks : list string) (docs : list (list string)) (vals : list (list json)) :
  Forall3 (λ chunk ds vs,
             chunk ≠ EmptyString
             ∧ strip SPACE_NEWLINE chunk = concat_str ds
             ∧ packed decoder ds vs) chunks docs vals →
  values_of (json_parse_chunks decoder chunks).1 = concat vals
  ∧ (json_parse_chunks decoder chunks).2 = Exhausted.
Proof.
  unfold json_parse_chunks. intros H.
  induction H as [|chunk ds vs chunks docs vals (Hne & Hs & Hp) _ IH]; [done|].
  destruct chunk as [|c chunk]; [done|]. cbn [for_chunk].
  rewrite append_nil, Hs.
  destruct (while_buffer_packed decoder ds vs _ Hp (le_n _)) as (tr & Hw & Hv).
  rewrite Hw. destruct (for_chunk decoder chunks EmptyString) as [tr' x].
  simpl in *. destruct IH as [IH ->]. by rewrite values_of_app, Hv, IH.
Qed.

Lemma packed_chunks_all_yielded_witness :
  values_of (json_parse_chunks raw_decode
               [dq "{'a':1}" +:+ NEWLINE; dq " {'b':2}{'a':1}" +:+ NEWLINE]).1
  = concat [[obj_a]; [obj_b; obj_a]]
  ∧ (json_parse_chunks raw_decode
       [dq "{'a':1}" +:+ NEWLINE; dq " {'b':2}{'a':1}" +:+ NEWLINE]).2 = Exhausted.
Proof.
  apply (packed_chunks_all_yielded raw_decode
           [dq "{'a':1}" +:+ NEWLINE; dq " {'b':2}{'a':1}" +:+ NEWLINE]
           [[dq "{'a':1}"]; [dq "{'b':2}"; dq "{'a':1}"]]
           [[obj_a]; [obj_b; obj_a]]).
  repeat constructor; done.
Defined.

Lemma all_in_slice_to (chars s : string) (n : nat) :
  all_in chars s = true → all_in chars (slice_to n s) = true.
Proof.
  revert n. induction s as [|c s IH]; intros [|n]; simpl; try done.
  intros [Hc Hs]%andb_prop. rewrite Hc. by apply IH.
Qed.

Lemma all_in_slice_from (chars s : string) (n : nat) :
  all_in chars s = true → all_in chars (slice_from n s) = true.
Proof.
  revert n. induction s as [|c s IH]; intros [|n]; simpl; try done.
  intros [Hc Hs]%andb_prop. by apply IH.
Qed.

Lemma reads_all_in (chars text : string) (fuel buffersize : nat) :
  all_in chars text = true →
  Forall (λ chunk, all_in chars chunk = true) (reads fuel buffersize text).
Proof.
  revert text. induction fuel as [|fuel IH]; intros text H; cbn [reads]; [done|].
  pose proof (all_in_slice_to chars text buffersize H) as Ht.
  destruct (slice_to buffersize text) as [|c chunk]; [done|].
  constructor; [done|]. apply IH. by apply all_in_slice_from.
Qed.

Lemma for_chunk_all_in (decoder : string → decoded) (chunks : list string) :
  Forall (λ chunk, all_in SPACE_NEWLINE chunk = true) chunks →
  for_chunk decoder chunks EmptyString = ([], Exhausted).
Proof.
  induction 1 as [|chunk chunks Hc _ IH]; [done|].
  destruct chunk as [|c chunk]; [done|]. cbn [for_chunk].
  rewrite append_nil. unfold strip. rewrite lstrip_all_in by done.
  cbn. by rewrite IH.
Qed.

(** X5. With a buffer size of 0 nothing is read, and a file that holds
    only spaces and newlines leaves the buffer empty: in both cases the
    generator yields nothing, never calls the decoder, and returns. *)
Theorem nothing_read_nothing_yielded (decoder : string → decoded) (text : string)
    (buffersize : nat) :
  buffersize = 0 ∨ all_in SPACE_NEWLINE text = true →
  json_parse decoder text buffersize = ([], Exhausted).
Proof.
  intros [->|H]; unfold json_parse, json_parse_chunks.
  - by destruct text.
  - apply for_chunk_all_in. by apply reads_all_in.
Qed.

Lemma nothing_read_nothing_yielded_witness :
  json_parse raw_decode (" " +:+ NEWLINE +:+ "  " +:+ NEWLINE) 3 = ([], Exhausted).
Proof.
  apply (nothing_read_nothing_yielded raw_decode (" " +:+ NEWLINE +:+ "  " +:+ NEWLINE) 3).
  right. reflexivity.
Defined.

(** Reads that all return are the chunks of [for_chunk]. *)
Lemma for_read_returns (decoder : string → decoded) (chunks : list string) (buffer : string) :
  for_read decoder (Return <$> chunks) buffer = for_chunk decoder chunks buffer.
Proof.
  revert buffer. induction chunks as [|chunk chunks IH]; intros buffer; [done|].
  destruct chunk as [|c chunk]; [done|]. cbn [fmap list_fmap for_read for_chunk].
  destruct (while_buffer decoder _ _) as [tr [b|e|]]; [|done..].
  change (list_fmap string (py string) Return chunks) with (Return <$> chunks).
  by rewrite IH.
Qed.

Lemma for_read_propagates (decoder : string → decoded) (reads : list (py string))
    (buffer : string) (trace : list event) (e : exn) :
  for_read decoder reads buffer = (trace, Propagates e) →
  (∃ chunks more, reads = (Return <$> chunks) ++ Raise e :: more
                  ∧ Forall (λ chunk, chunk ≠ EmptyString) chunks)
  ∨ (is_ValueError e = false
     ∧ ∃ attempt, last trace = Some (Attempt attempt) ∧ decoder attempt = Raised e).
Proof.
  revert buffer trace. induction reads as [|[chunk|e'] reads IH]; intros buffer trace H.
  - done.
  - destruct chunk as [|c chunk]; [done|]. cbn [for_read] in H.
    destruct (while_buffer decoder _ _) as [tr [b|e''|]] eqn:W; simplify_eq.
    + destruct (for_read decoder reads b) as [tr' x] eqn:F. simplify_eq.
      destruct (IH _ _ F) as [(chunks & more & -> & Hne)|(Hv & s & Hl & Hs)].
      * left. exists (String c chunk :: chunks), more. split; [done|].
        by apply Forall_cons.
      * right. split; [done|]. exists s. split; [|done]. by rewrite last_app, Hl.
    + right. split; [by destruct (while_buffer_raised _ _ _ _ _ W)|].
      by eapply while_buffer_raised_last.
  - cbn [for_read] in H. simplify_eq. left. exists [], reads. by split.
Qed.

Lemma for_read_raises (decoder : string → decoded) (chunks : list string)
    (more : list (py string)) (buffer : string) (trace : list event) (e : exn) :
  Forall (λ chunk, chunk ≠ EmptyString) chunks →
  for_chunk decoder chunks buffer = (trace, Exhausted) →
  for_read decoder ((Return <$> chunks) ++ Raise e :: more) buffer = (trace, Propagates e).
Proof.
  intros Hne. revert buffer trace.
  induction Hne as [|chunk chunks Hc _ IH]; intros buffer trace H.
  - cbn [for_chunk] in H. by simplify_eq.
  - destruct chunk as [|c chunk]; [done|]. cbn [fmap list_fmap app for_read for_chunk] in *.
    destruct (while_buffer decoder _ _) as [tr [b|e'|]]; [|done..].
    destruct (for_chunk decoder chunks b) as [tr' x] eqn:F. simplify_eq.
    change (list_fmap string (py string) Return chunks) with (Return <$> chunks).
    by rewrite (IH _ _ F).
Qed.

(** X6. An exception leaves the generator in two ways only.  Either
    [fileobj.read] raised it, after reads that returned chunks: the read
    is outside the [try], so it leaves whatever its class, a ValueError
    too.  Or the decoder raised it and it is not a ValueError: it leaves
    right after the decode attempt that raised it.  A ValueError of the
    decoder never leaves.  And what a read raises does leave, when the
    reads before it returned chunks and left the generator running. *)
Theorem only_other_exceptions_escape (decoder : string → decoded) :
  (∀ reads trace e,
     json_parse_reads decoder reads = (trace, Propagates e) →
     (∃ chunks more, reads = (Return <$> chunks) ++ Raise e :: more
                     ∧ Forall (λ chunk, chunk ≠ EmptyString) chunks)
     ∨ (is_ValueError e = false
        ∧ ∃ attempt, last trace = Some (Attempt attempt) ∧ decoder attempt = Raised e))
  ∧ (∀ chunks more trace e,
       Forall (λ chunk, chunk ≠ EmptyString) chunks →
       json_parse_chunks decoder chunks = (trace, Exhausted) →
       json_parse_reads decoder ((Return <$> chunks) ++ Raise e :: more)
       = (trace, Propagates e))
  ∧ (∀ chunks, json_parse_reads decoder (Return <$> chunks)
               = json_parse_chunks decoder chunks).
Proof.
  split; [|split].
  - intros reads trace e. apply for_read_propagates.
  - intros chunks more trace e. apply for_read_raises.
  - intros chunks. apply for_read_returns.
Qed.

Lemma only_other_exceptions_escape_witness :
  json_parse_reads raw_decode
    ((Return <$> [dq "{'a':1}"])
     ++ Raise (ValueError "I/O operation on closed file.") :: [])
  = ([Attempt (dq "{'a':1}"); Yield obj_a],
     Propagates (ValueError "I/O operation on closed file.")).
Proof.
  apply (proj1 (proj2 (only_other_exceptions_escape raw_decode))
           [dq "{'a':1}"] [] [Attempt (dq "{'a':1}"); Yield obj_a]
           (ValueError "I/O operation on closed file.")).
  - by apply Forall_singleton.
  - vm_compute. reflexivity.
Defined.

(** X7. With a decoder that consumes at least one character whenever it
    returns a value, the [while] loop of every chunk ends: the generator
    never goes on for ever. *)
Theorem loop_ends_when_decoder_advances (decoder : string → decoded)
    (chunks : list string) :
  advances decoder → (json_parse_chunks decoder chunks).2 ≠ Spins.
Proof.
  intros Hadv. unfold json_parse_chunks. generalize EmptyString.
  induction chunks as [|chunk chunks IH]; intros buffer; [done|].
  destruct chunk as [|c chunk]; [done|]. cbn [for_chunk].
  pose proof (while_buffer_ends decoder
    (String.length (strip SPACE_NEWLINE (buffer +:+ String c chunk)))
    (strip SPACE_NEWLINE (buffer +:+ String c chunk)) Hadv (le_n _)) as Hw.
  destruct (while_buffer decoder _ _) as [tr [b|e|]]; [|done|done].
  specialize (IH b). by destruct (for_chunk decoder chunks b).
Qed.

Lemma loop_ends_when_decoder_advances_witness :
  advances raw_decode
  ∧ (json_parse_chunks raw_decode [dq "{'a':1}{'b'"; dq ":2}"]).2 ≠ Spins.
Proof.
  split; [exact raw_decode_advances|].
  apply (loop_ends_when_decoder_advances raw_decode [dq "{'a':1}{'b'"; dq ":2}"]).
  exact raw_decode_advances.
Defined.

(** X8. What the generator has done after some reads does not depend on
    the reads that follow: the run on more chunks starts with the run on
    the chunks read so far. *)
Theorem run_extends_with_more_chunks (decoder : string → decoded)
    (chunks more : list string) :
  (json_parse_chunks decoder chunks).1 `prefix_of`
    (json_parse_chunks decoder (chunks ++ more)).1
  ∧ values_of (json_parse_chunks decoder chunks).1 `prefix_of`
      values_of (json_parse_chunks decoder (chunks ++ more)).1.
Proof.
  assert ((json_parse_chunks decoder chunks).1 `prefix_of`
            (json_parse_chunks decoder (chunks ++ more)).1) as [k Hk].
  { unfold json_parse_chunks. generalize EmptyString.
    induction chunks as [|chunk chunks IH]; intros buffer; [apply prefix_nil|].
    destruct chunk as [|c chunk]; [done|]. cbn [app for_chunk].
    destruct (while_buffer decoder _ _) as [tr [b|e|]]; [|done|done].
    specialize (IH b). destruct (for_chunk decoder chunks b) as [tr1 x1].
    destruct (for_chunk decoder (chunks ++ more) b) as [tr2 x2]. simpl in *.
    by apply prefix_app. }
  split; [by exists k|]. rewrite Hk, values_of_app. by eexists.
Qed.

(** ** More on strings: occurrences, split, whitespace *)

Lemma str_in_append (c : ascii) (a b : string) :
  str_in c (a +:+ b) = str_in c a || str_in c b.
Proof.
  induction a as [|x a IH]; [done|]. rewrite append_cons. simpl.
  by rewrite IH, orb_assoc.
Qed.

Lemma count_char_append (c : ascii) (a b : string) :
  count_char c (a +:+ b) = count_char c a + count_char c b.
Proof.
  induction a as [|x a IH]; [done|]. rewrite append_cons. simpl. rewrite IH. lia.
Qed.

Lemma count_char_0 (c : ascii) (s : string) :
  count_char c s = 0 ↔ str_in c s = false.
Proof.
  induction s as [|x s IH]; [done|]. simpl.
  rewrite (Ascii.eqb_sym c x). destruct (Ascii.eqb x c); simpl; [split; [lia|done] | done].
Qed.

Lemma count_char_all_in (c : ascii) (chars s : string) :
  str_in c chars = false → all_in chars s = true → count_char c s = 0.
Proof.
  intros Hc. induction s as [|x s IH]; [done|]. simpl. intros [Hx Hs]%andb_prop.
  destruct (Ascii.eqb x c) eqn:E; [|by rewrite IH].
  apply Ascii.eqb_eq in E as ->. congruence.
Qed.

Lemma is_space_WHITESPACE (c : ascii) : is_space c = str_in c WHITESPACE.
Proof. destruct c as [[] [] [] [] [] [] [] []]; reflexivity. Qed.

Lemma lstrip_space_lstrip (s : string) : lstrip_space s = lstrip WHITESPACE s.
Proof. induction s as [|c s IH]; [done|]. cbn [lstrip_space lstrip]. by rewrite is_space_WHITESPACE, IH. Qed.

Lemma rstrip_space_rstrip (s : string) : rstrip_space s = rstrip WHITESPACE s.
Proof. induction s as [|c s IH]; [done|]. cbn [rstrip_space rstrip]. by rewrite is_space_WHITESPACE, IH. Qed.

Lemma strip_space_strip (s : string) : strip_space s = strip WHITESPACE s.
Proof. unfold strip_space, strip. by rewrite rstrip_space_rstrip, lstrip_space_lstrip. Qed.

Lemma lstrip_prepend_all_in (chars w s : string) :
  all_in chars w = true → lstrip chars (w +:+ s) = lstrip chars s.
Proof. intros Hw. rewrite lstrip_append. by rewrite lstrip_all_in. Qed.

Lemma strip_prepend_all_in (chars w s : string) :
  all_in chars w = true → strip chars (w +:+ s) = strip chars s.
Proof. intros Hw. unfold strip. by rewrite lstrip_prepend_all_in. Qed.

(** [split]: its pieces. *)
Lemma split_not_nil (sep : ascii) (s : string) : split sep s ≠ [].
Proof. induction s as [|c s IH]; [done|]. simpl. destruct (Ascii.eqb c sep); [done|]. by destruct (split sep s). Qed.

Lemma length_split (sep : ascii) (s : string) :
  length (split sep s) = S (count_char sep s).
Proof.
  induction s as [|c s IH]; [done|]. simpl. destruct (Ascii.eqb c sep); simpl.
  - by rewrite IH.
  - pose proof (split_not_nil sep s). destruct (split sep s); [done|]. simpl in *. lia.
Qed.

Lemma split_no_sep (sep : ascii) (s : string) :
  str_in sep s = false → split sep s = [s].
Proof.
  induction s as [|c s IH]; [done|]. simpl. rewrite (Ascii.eqb_sym sep c).
  destruct (Ascii.eqb c sep); [done|]. simpl. intros H. by rewrite IH.
Qed.

Lemma split_append_sep (sep : ascii) (a b : string) :
  str_in sep a = false → split sep (a +:+ String sep b) = a :: split sep b.
Proof.
  induction a as [|c a IH].
  - intros _. rewrite append_nil. simpl. by rewrite Ascii.eqb_refl.
  - rewrite append_cons. simpl. rewrite (Ascii.eqb_sym sep c).
    destruct (Ascii.eqb c sep); [done|]. simpl. intros H. by rewrite IH.
Qed.

Lemma split_pieces (sep : ascii) (s : string) :
  Forall (λ piece, str_in sep piece = false
                   ∧ ∀ c, str_in c piece = true → str_in c s = true) (split sep s).
Proof.
  induction s as [|x s IH]; [by repeat constructor|]. simpl.
  destruct (Ascii.eqb x sep) eqn:E.
  - constructor; [done|]. eapply Forall_impl; [exact IH|].
    intros p [H1 H2]. split; [done|]. intros c Hc. rewrite (H2 c Hc). apply orb_true_r.
  - pose proof (split_not_nil sep s). destruct (split sep s) as [|w ws]; [done|].
    apply Forall_cons in IH as [[Hw1 Hw2] IH]. constructor.
    + split.
      * simpl. rewrite (Ascii.eqb_sym sep x), E. done.
      * intros c. simpl. destruct (Ascii.eqb c x); [done|]. simpl. apply Hw2.
    + eapply Forall_impl; [exact IH|].
      intros p [H1 H2]. split; [done|]. intros c Hc. rewrite (H2 c Hc). apply orb_true_r.
Qed.

(** [replace(c, '')] *)
Lemma str_in_remove_char (c d : ascii) (s : string) :
  str_in d (remove_char c s) = str_in d s && negb (Ascii.eqb d c).
Proof.
  induction s as [|x s IH]; [done|]. simpl. destruct (Ascii.eqb x c) eqn:E.
  - apply Ascii.eqb_eq in E as ->. rewrite IH. destruct (Ascii.eqb d c); simpl; [|done].
    by rewrite !andb_false_r.
  - simpl. rewrite IH. destruct (Ascii.eqb d x) eqn:E'; simpl; [|done].
    apply Ascii.eqb_eq in E' as ->. by rewrite E.
Qed.

Lemma remove_char_absent (c : ascii) (s : string) :
  str_in c s = false → remove_char c s = s.
Proof.
  induction s as [|x s IH]; [done|]. simpl. rewrite (Ascii.eqb_sym c x).
  destruct (Ascii.eqb x c); [done|]. simpl. intros H. by rewrite IH.
Qed.

Lemma remove_char_append (c : ascii) (a b : string) :
  remove_char c (a +:+ b) = remove_char c a +:+ remove_char c b.
Proof.
  induction a as [|x a IH]; [done|]. rewrite append_cons. simpl.
  destruct (Ascii.eqb x c); [done|]. by rewrite append_cons, IH.
Qed.

(** [find] *)
Lemma str_find_absent (c : ascii) (s : string) :
  str_in c s = false → str_find c s = (-1)%Z.
Proof.
  induction s as [|x s IH]; [done|]. simpl. rewrite (Ascii.eqb_sym c x).
  destruct (Ascii.eqb x c); [done|]. simpl. intros H. by rewrite IH.
Qed.

Lemma str_find_first (c : ascii) (a b : string) :
  str_in c a = false → str_find c (a +:+ String c b) = Z.of_nat (String.length a).
Proof.
  induction a as [|x a IH].
  - intros _. rewrite append_nil. simpl. by rewrite Ascii.eqb_refl.
  - rewrite append_cons. simpl. rewrite (Ascii.eqb_sym c x).
    destruct (Ascii.eqb x c); [done|]. simpl. intros H. rewrite IH by done.
    destruct (Z.eqb_spec (Z.of_nat (String.length a)) (-1)); lia.
Qed.

(** [readlines] *)
Lemma readlines_line (line rest : string) :
  str_in LF line = false →
  readlines (line +:+ NEWLINE +:+ rest) = (line +:+ NEWLINE) :: readlines rest.
Proof.
  induction line as [|c line IH].
  - intros _. unfold NEWLINE. rewrite append_nil, append_cons, append_nil.
    cbn [readlines]. by rewrite Ascii.eqb_refl.
  - cbn [str_in]. intros [H1 H2]%orb_false_elim. rewrite Ascii.eqb_sym in H1.
    rewrite !append_cons. cbn [readlines]. by rewrite H1, IH.
Qed.

(** ** read_paramstrings_file *)

Lemma unpack_pair_cases (item : list string) :
  (length item = 2 ∧ ∃ k v, item = [k; v] ∧ unpack_pair item = Return (k, v))
  ∨ (length item ≠ 2 ∧ ∃ msg, unpack_pair item = Raise (ValueError msg)).
Proof.
  destruct item as [|k [|v [|x item]]]; simpl; eauto 10.
Qed.

Lemma dict_of_pairs_from_cases (pairs : list (list string)) (d : gmap string string) :
  (Forall (λ item, length item = 2) pairs
   ∧ ∃ r, dict_of_pairs_from pairs d = Return r
          ∧ ∀ k v, r !! k = Some v → d !! k = Some v ∨ [k; v] ∈ pairs)
  ∨ (¬ Forall (λ item, length item = 2) pairs
     ∧ ∃ msg, dict_of_pairs_from pairs d = Raise (ValueError msg)).
Proof.
  revert d. induction pairs as [|item pairs IH]; intros d.
  - left. split; [done|]. exists d. split; [done|]. auto.
  - cbn [dict_of_pairs_from].
    destruct (unpack_pair_cases item) as [(Hl & k & v & -> & ->)|(Hl & msg & ->)].
    + cbn [py_bind fst snd].
      destruct (IH (<[k:=v]> d)) as [(Hall & r & -> & Hr)|(Hall & msg & ->)].
      * left. split; [by constructor|]. exists r. split; [done|].
        intros k' v' H. destruct (Hr _ _ H) as [Hd|Hin].
        -- apply lookup_insert_Some in Hd as [[-> ->]|[_ Hd]]; [|by left].
           right. apply elem_of_cons. by left.
        -- right. apply elem_of_cons. by right.
      * right. split; [|eauto]. by intros [_ ?]%Forall_cons.
    + right. split; [|eauto]. by intros [? _]%Forall_cons.
Qed.

Lemma count_char_strip_space (c : ascii) (s : string) :
  str_in c WHITESPACE = false → count_char c (strip_space s) = count_char c s.
Proof.
  intros Hc. rewrite strip_space_strip.
  destruct (strip_decompose WHITESPACE s) as (l & r & Hs & Hl & Hr & _).
  rewrite Hs at 2. rewrite !count_char_append.
  rewrite (count_char_all_in c WHITESPACE l), (count_char_all_in c WHITESPACE r) by done.
  lia.
Qed.

(** One line returns a dictionary exactly when each of its
    comma-separated parts has one equals sign; otherwise it raises
    ValueError. *)
Lemma paramstring_dict_cases (line : string) :
  (Forall (λ part, count_char "=" part = 1) (split "," (without_run_id line))
   ∧ ∃ d, paramstring_dict line = Return d
          ∧ ∀ k v, d !! k = Some v →
              ∃ part, part ∈ split "," (without_run_id line)
                      ∧ split "=" (strip_space part) = [k; v])
  ∨ (¬ Forall (λ part, count_char "=" part = 1) (split "," (without_run_id line))
     ∧ ∃ msg, paramstring_dict line = Raise (ValueError msg)).
Proof.
  unfold paramstring_dict.
  assert (Forall (λ item, length item = 2)
            ((λ s, split "=" (strip_space s)) <$> split "," (without_run_id line))
          ↔ Forall (λ part, count_char "=" part = 1) (split "," (without_run_id line)))
    as Hiff.
  { rewrite Forall_fmap. apply Forall_iff. intros part. simpl.
    rewrite length_split, count_char_strip_space by done. lia. }
  destruct (dict_of_pairs_from_cases
              ((λ s, split "=" (strip_space s)) <$> split "," (without_run_id line)) ∅)
    as [(Hall & d & Hd & Hin)|(Hall & msg & Hd)].
  - left. split; [by apply Hiff|]. exists d. split; [done|].
    intros k v H. destruct (Hin _ _ H) as [He|He]; [by rewrite lookup_empty in He|].
    apply list_elem_of_fmap in He as (part & Hp & He). eauto.
  - right. split; [|eauto]. by rewrite <- Hiff.
Qed.

Lemma paramstring_dicts_cases (lines : list string) (acc : list (gmap string string)) :
  (Forall (λ line, Forall (λ part, count_char "=" part = 1)
                     (split "," (without_run_id line))) lines
   ∧ ∃ ds, paramstring_dicts lines acc = Return (acc ++ ds)
           ∧ Forall2 (λ line d, paramstring_dict line = Return d) lines ds)
  ∨ (¬ Forall (λ line, Forall (λ part, count_char "=" part = 1)
                         (split "," (without_run_id line))) lines
     ∧ ∃ msg, paramstring_dicts lines acc = Raise (ValueError msg)).
Proof.
  revert acc. induction lines as [|line lines IH]; intros acc.
  - left. split; [done|]. exists []. by rewrite app_nil_r.
  - cbn [paramstring_dicts].
    destruct (paramstring_dict_cases line) as [(Hl & d & Hd & _)|(Hl & msg & ->)].
    + rewrite Hd. cbn [py_bind].
      destruct (IH (acc ++ [d])) as [(Hall & ds & -> & Hds)|(Hall & msg & ->)].
      * left. split; [by constructor|]. exists (d :: ds).
        rewrite <- app_assoc. split; [done|]. by constructor.
      * right. split; [|eauto]. by intros [_ ?]%Forall_cons.
    + right. split; [|eauto]. by intros [? _]%Forall_cons.
Qed.

(** X9. The function returns exactly when every comma-separated part of
    every line, taken after the run id, has one equals sign; it then
    returns one dictionary per line.  Otherwise it raises ValueError, as
    it does on a file with an empty line in it. *)
Theorem paramstrings_returns_iff_one_equals_sign (text : string) :
  ((∃ dicts, read_paramstrings_file text = Return dicts)
   ↔ Forall (λ line, Forall (λ part, count_char "=" part = 1)
                       (split "," (without_run_id line))) (readlines text))
  ∧ (∀ dicts, read_paramstrings_file text = Return dicts →
              length dicts = length (readlines text))
  ∧ (∀ e, read_paramstrings_file text = Raise e → ∃ msg, e = ValueError msg)
  ∧ (NEWLINE ∈ readlines text →
     ∃ msg, read_paramstrings_file text = Raise (ValueError msg)).
Proof.
  unfold read_paramstrings_file.
  destruct (paramstring_dicts_cases (readlines text) [])
    as [(Hall & ds & Hr & Hds)|(Hall & msg & Hr)]; rewrite Hr.
  - repeat split; eauto.
    + intros dicts [= <-]. simpl. by apply Forall2_length in Hds.
    + done.
    + intros Hin. rewrite Forall_forall in Hall. apply Hall in Hin.
      vm_compute in Hin. by apply Forall_cons in Hin as [? _].
  - repeat split; try done.
    + by intros [? ?].
    + intros e [= <-]. eauto.
    + eauto.
Qed.

Lemma paramstrings_returns_iff_one_equals_sign_witness :
  ∃ msg, read_paramstrings_file (paramstring_line "1" [("a", "1")] +:+ NEWLINE)
         = Raise (ValueError msg).
Proof.
  apply (proj2 (proj2 (proj2 (paramstrings_returns_iff_one_equals_sign
           (paramstring_line "1" [("a", "1")] +:+ NEWLINE))))).
  vm_compute. set_solver.
Defined.

Lemma str_in_strip (chars s : string) (c : ascii) :
  str_in c (strip chars s) = true → str_in c s = true.
Proof.
  destruct (strip_decompose chars s) as (l & r & Hs & _). intros H.
  rewrite Hs, !str_in_append, H. by rewrite orb_true_r.
Qed.

Lemma starts_in_append (chars a b : string) :
  starts_in chars (a +:+ b)
  = match a with EmptyString => starts_in chars b | _ => starts_in chars a end.
Proof. by destruct a. Qed.

Lemma ends_in_append (chars a b : string) :
  ends_in chars (a +:+ b)
  = match b with EmptyString => ends_in chars a | _ => ends_in chars b end.
Proof.
  induction a as [|c a IH].
  - rewrite append_nil. by destruct b.
  - rewrite append_cons. cbn [ends_in]. rewrite IH.
    destruct b as [|d b].
    + by rewrite append_empty_r.
    + destruct a; by rewrite ?append_nil, ?append_cons.
Qed.

Lemma split_first_starts (chars : string) (sep : ascii) (s piece : string)
    (pieces : list string) :
  split sep s = piece :: pieces →
  starts_in chars piece = true → starts_in chars s = true.
Proof.
  destruct s as [|c s]; simpl; [by intros [= <- _]|].
  destruct (Ascii.eqb c sep); [by intros [= <- _]|].
  destruct (split sep s); by intros [= <- _].
Qed.

Lemma split_singleton (sep : ascii) (s piece : string) :
  split sep s = [piece] → s = piece.
Proof.
  revert piece. induction s as [|c s IH]; intros piece; simpl; [by intros [= <-]|].
  pose proof (split_not_nil sep s) as Hne.
  destruct (Ascii.eqb c sep).
  - intros [= <- H]. done.
  - destruct (split sep s) as [|w [|w' ws]]; [done| |done].
    intros [= <-]. by rewrite (IH w eq_refl).
Qed.

Lemma split_last_ends (chars : string) (sep : ascii) (s piece : string) :
  last (split sep s) = Some piece →
  ends_in chars piece = true → ends_in chars s = true.
Proof.
  revert piece. induction s as [|c s IH]; intros piece; simpl; [by intros [= <-]|].
  pose proof (split_not_nil sep s) as Hne.
  destruct (Ascii.eqb c sep) eqn:E.
  - destruct (split sep s) as [|w ws] eqn:Es; [done|]. cbn [last].
    intros Hl He. specialize (IH _ Hl He). by destruct s.
  - destruct (split sep s) as [|w ws] eqn:Es; [done|].
    destruct ws as [|w' ws].
    + apply split_singleton in Es as ->. cbn [last]. by intros [= <-].
    + cbn [last] in *. intros Hl He. specialize (IH _ Hl He). by destruct s.
Qed.

(** X10. What the function returns holds no single quote, comma or
    equals sign in any name or value; no name starts with whitespace and
    no value ends with it. *)
Theorem paramstrings_entries_are_clean (text : string) (dicts : list (gmap string string)) :
  read_paramstrings_file text = Return dicts →
  Forall (λ d : gmap string string, ∀ k v, d !! k = Some v →
            str_in SQUOTE k = false ∧ str_in "," k = false ∧ str_in "=" k = false
            ∧ str_in SQUOTE v = false ∧ str_in "," v = false ∧ str_in "=" v = false
            ∧ starts_in WHITESPACE k = false ∧ ends_in WHITESPACE v = false) dicts.
Proof.
  unfold read_paramstrings_file. intros Hr.
  destruct (paramstring_dicts_cases (readlines text) [])
    as [(_ & ds & Hr' & Hds)|(_ & msg & Hr')]; rewrite Hr' in Hr; simplify_eq.
  simpl. clear Hr'. induction Hds as [|line d lines ds Hd _ IH]; [done|].
  constructor; [|done]. intros k v Hkv.
  destruct (paramstring_dict_cases line) as [(_ & d' & Hd' & Hin)|(_ & msg & Hd')];
    rewrite Hd' in Hd; simplify_eq.
  destruct (Hin _ _ Hkv) as (part & Hpart & Hsplit).
  pose proof (split_pieces "," (without_run_id line)) as Hparts.
  rewrite Forall_forall in Hparts. destruct (Hparts _ Hpart) as [Hcomma Hchars].
  pose proof (split_pieces "=" (strip_space part)) as Hkvs. rewrite Hsplit in Hkvs.
  apply Forall_cons in Hkvs as [[Hk1 Hk2] [[Hv1 Hv2] _]%Forall_cons].
  assert (∀ c s, str_in c s = true → str_in c (strip_space part) = true →
                 str_in c part = true) as Hstrip.
  { intros c s _ H. rewrite strip_space_strip in H. by apply str_in_strip in H. }
  assert (∀ c piece, (∀ x, str_in x piece = true → str_in x (strip_space part) = true) →
            str_in c part = false → str_in c piece = false) as Hnot.
  { intros c piece Hp Hc. destruct (str_in c piece) eqn:E; [|done].
    apply Hp in E. rewrite strip_space_strip in E. apply str_in_strip in E. congruence. }
  assert (str_in SQUOTE part = false) as Hq.
  { destruct (str_in SQUOTE part) eqn:E; [|done]. apply Hchars in E.
    unfold without_run_id in E. rewrite str_in_remove_char in E.
    by rewrite Ascii.eqb_refl, andb_false_r in E. }
  assert (starts_in WHITESPACE (strip_space part) = false
          ∧ ends_in WHITESPACE (strip_space part) = false) as [Hs He].
  { rewrite strip_space_strip.
    by destruct (strip_decompose WHITESPACE part) as (l & r & _ & _ & _ & ? & ?). }
  repeat split; eauto.
  - destruct (starts_in WHITESPACE k) eqn:E; [|done].
    by rewrite (split_first_starts _ _ _ _ _ Hsplit E) in Hs.
  - destruct (ends_in WHITESPACE v) eqn:E; [|done].
    assert (last (split "=" (strip_space part)) = Some v) as Hl by (by rewrite Hsplit).
    by rewrite (split_last_ends _ _ _ _ Hl E) in He.
Qed.

Lemma paramstrings_entries_are_clean_witness :
  Forall (λ d : gmap string string, ∀ k v, d !! k = Some v →
            str_in SQUOTE k = false ∧ str_in "," k = false ∧ str_in "=" k = false
            ∧ str_in SQUOTE v = false ∧ str_in "," v = false ∧ str_in "=" v = false
            ∧ starts_in WHITESPACE k = false ∧ ends_in WHITESPACE v = false)
    [ {[ "a" := "1" ]} ].
Proof.
  apply (paramstrings_entries_are_clean (paramstring_line "1" [("a", "1")])).
  vm_compute. reflexivity.
Defined.

Lemma without_run_id_colon (id rest : string) :
  str_in ":" id = false →
  without_run_id (id +:+ ":" +:+ rest) = remove_char SQUOTE rest.
Proof.
  intros H. unfold without_run_id.
  change (":" +:+ rest) with (String ":" rest). rewrite str_find_first by done.
  replace (Z.to_nat (Z.of_nat (String.length id) + 1))
    with (String.length (id +:+ ":")) by (rewrite length_append; simpl; lia).
  change (String ":" rest) with (":" +:+ rest).
  by rewrite <- append_assoc, slice_from_append.
Qed.

(** X11. The run id does not matter: two lines that differ only before
    their first colon give the same result, and a line with no colon is
    read whole, as if it started with one. *)
Theorem paramstring_run_id_is_ignored :
  (∀ id1 id2 rest,
     str_in ":" id1 = false → str_in ":" id2 = false →
     paramstring_dict (id1 +:+ ":" +:+ rest) = paramstring_dict (id2 +:+ ":" +:+ rest))
  ∧ (∀ line, str_in ":" line = false →
             paramstring_dict line = paramstring_dict (":" +:+ line)).
Proof.
  split.
  - intros id1 id2 rest H1 H2. unfold paramstring_dict.
    by rewrite !without_run_id_colon.
  - intros line H. unfold paramstring_dict.
    pose proof (without_run_id_colon EmptyString line eq_refl) as H0.
    rewrite append_nil in H0.
    rewrite H0. unfold without_run_id. by rewrite str_find_absent.
Qed.

Lemma paramstring_run_id_is_ignored_witness :
  paramstring_dict ("12" +:+ ":" +:+ " a='1'") = paramstring_dict ("7" +:+ ":" +:+ " a='1'").
Proof.
  apply (proj1 paramstring_run_id_is_ignored "12" "7" " a='1'"); reflexivity.
Defined.

Lemma join_cons (sep a b : string) (parts : list string) :
  join sep (a :: b :: parts) = a +:+ sep +:+ join sep (b :: parts).
Proof. reflexivity. Qed.

Lemma str_in_join (c : ascii) (sep : string) (parts : list string) :
  str_in c sep = false → Forall (λ part, str_in c part = false) parts →
  str_in c (join sep parts) = false.
Proof.
  intros Hsep. induction 1 as [|part parts Hp Hps IH]; [done|].
  destruct parts as [|part' parts]; [done|]. rewrite join_cons.
  by rewrite !str_in_append, Hp, Hsep, IH.
Qed.

Lemma remove_char_join (c : ascii) (sep : string) (parts : list string) :
  remove_char c (join sep parts) = join (remove_char c sep) (remove_char c <$> parts).
Proof.
  induction parts as [|part parts IH]; [done|].
  destruct parts as [|part' parts]; [done|].
  rewrite join_cons, !fmap_cons, join_cons, !remove_char_append, IH. done.
Qed.

Lemma readlines_lines (bodies : list string) :
  Forall (λ body, str_in LF body = false) bodies →
  readlines (concat_str ((λ body, body +:+ NEWLINE) <$> bodies))
  = (λ body, body +:+ NEWLINE) <$> bodies.
Proof.
  induction 1 as [|body bodies Hb _ IH]; [done|].
  cbn [fmap list_fmap concat_str foldr]. fold (concat_str ((λ body, body +:+ NEWLINE) <$> bodies)).
  rewrite append_assoc, readlines_line by done. by rewrite IH.
Qed.

Lemma paramstring_dicts_all (lines : list string) (ds acc : list (gmap string string)) :
  Forall2 (λ line d, paramstring_dict line = Return d) lines ds →
  paramstring_dicts lines acc = Return (acc ++ ds).
Proof.
  intros H. revert acc. induction H as [|line d lines ds Hd _ IH]; intros acc.
  - by rewrite app_nil_r.
  - cbn [paramstring_dicts]. rewrite Hd. cbn [py_bind]. by rewrite IH, <- app_assoc.
Qed.

Lemma dict_of_pairs_from_all (params : list (string * string)) (d : gmap string string) :
  dict_of_pairs_from ((λ kv, [kv.1; kv.2]) <$> params) d
  = Return (foldl (λ d kv, <[kv.1 := kv.2]> d) d params).
Proof.
  revert d. induction params as [|[k v] params IH]; intros d; [done|].
  cbn [fmap list_fmap dict_of_pairs_from unpack_pair py_bind fst snd foldl]. apply IH.
Qed.

Lemma clean_name_spec (k : string) :
  clean_name k = true ↔
    str_in SQUOTE k = false ∧ str_in "," k = false ∧ str_in "=" k = false
    ∧ str_in LF k = false ∧ starts_in WHITESPACE k = false.
Proof. unfold clean_name. rewrite !andb_true_iff, !negb_true_iff. tauto. Qed.

Lemma clean_value_spec (v : string) :
  clean_value v = true ↔
    str_in SQUOTE v = false ∧ str_in "," v = false ∧ str_in "=" v = false
    ∧ str_in LF v = false ∧ ends_in WHITESPACE v = false.
Proof. unfold clean_value. rewrite !andb_true_iff, !negb_true_iff. tauto. Qed.

(** A written parameter, once its quotes are removed and the whitespace
    around it stripped, splits into its name and its value. *)
Lemma cleaned_param_splits (k v tail : string) :
  clean_name k = true → clean_value v = true → all_in WHITESPACE tail = true →
  split "=" (strip_space ((" " +:+ k +:+ "=" +:+ v) +:+ tail)) = [k; v].
Proof.
  intros (Hk1 & Hk2 & Hk3 & Hk4 & Hk5)%clean_name_spec
         (Hv1 & Hv2 & Hv3 & Hv4 & Hv5)%clean_value_spec Ht.
  rewrite strip_space_strip, strip_append_all_in by done.
  rewrite (strip_prepend_all_in WHITESPACE " ") by done.
  rewrite strip_fixed.
  - change ("=" +:+ v) with (String "=" v). rewrite split_append_sep by done.
    by rewrite split_no_sep.
  - rewrite starts_in_append. by destruct k.
  - rewrite ends_in_append. change ("=" +:+ v) with (String "=" v).
    cbn [ends_in]. by destruct v.
Qed.

Lemma written_param_cleaned (k v : string) :
  str_in SQUOTE k = false → str_in SQUOTE v = false →
  remove_char SQUOTE (" " +:+ k +:+ "='" +:+ v +:+ "'") = " " +:+ k +:+ "=" +:+ v.
Proof.
  intros Hk Hv. rewrite !remove_char_append.
  rewrite (remove_char_absent _ k), (remove_char_absent _ v) by done.
  change (remove_char SQUOTE "='") with "=". change (remove_char SQUOTE "'") with EmptyString.
  change (remove_char SQUOTE " ") with " ". by rewrite append_empty_r.
Qed.

Lemma written_params_split (params : list (string * string)) :
  params ≠ [] →
  Forall (λ kv, clean_name kv.1 = true ∧ clean_value kv.2 = true) params →
  (λ s, split "=" (strip_space s))
    <$> split "," (remove_char SQUOTE
                     (join "," ((λ kv, " " +:+ kv.1 +:+ "='" +:+ kv.2 +:+ "'") <$> params))
                   +:+ NEWLINE)
  = (λ kv, [kv.1; kv.2]) <$> params.
Proof.
  intros Hne Hall. induction Hall as [|[k v] params [Hk Hv] Hps IH]; [done|]. clear Hne.
  pose proof Hk as (Hk1 & Hk2 & Hk3 & Hk4 & Hk5)%clean_name_spec.
  pose proof Hv as (Hv1 & Hv2 & Hv3 & Hv4 & Hv5)%clean_value_spec.
  cbn [fst snd] in *.
  assert (str_in "," (" " +:+ k +:+ "=" +:+ v) = false) as Hcomma.
  { by rewrite !str_in_append, Hk2, Hv2. }
  destruct params as [|kv' params].
  - cbn [fmap list_fmap join fst snd]. rewrite written_param_cleaned by done.
    rewrite split_no_sep by (by rewrite str_in_append, Hcomma).
    cbn [fmap list_fmap]. by rewrite cleaned_param_splits.
  - rewrite !fmap_cons, join_cons. cbn [fst snd].
    rewrite remove_char_append, written_param_cleaned by done.
    rewrite remove_char_append. change (remove_char SQUOTE ",") with ",".
    set (A := " " +:+ k +:+ "=" +:+ v) in *.
    set (R := remove_char SQUOTE (join "," _)) in *.
    replace ((A +:+ "," +:+ R) +:+ NEWLINE) with (A +:+ String "," (R +:+ NEWLINE))
      by (by rewrite !append_assoc).
    rewrite split_append_sep by done.
    rewrite fmap_cons. f_equal.
    + pose proof (cleaned_param_splits k v EmptyString Hk Hv eq_refl) as H.
      by rewrite append_empty_r in H.
    + apply IH. done.
Qed.

Lemma paramstring_dict_written (run_id : string) (params : list (string * string)) :
  str_in ":" run_id = false → params ≠ [] →
  Forall (λ kv, clean_name kv.1 = true ∧ clean_value kv.2 = true) params →
  paramstring_dict (paramstring_line run_id params) = Return (list_to_map (reverse params)).
Proof.
  intros Hid Hne Hall. unfold paramstring_dict, paramstring_line.
  rewrite without_run_id_colon by done.
  rewrite remove_char_append. change (remove_char SQUOTE NEWLINE) with NEWLINE.
  rewrite written_params_split by done.
  by rewrite dict_of_pairs_from_all, foldl_insert_list_to_map.
Qed.

Lemma paramstring_line_no_newline (run_id : string) (params : list (string * string)) :
  str_in LF run_id = false →
  Forall (λ kv, clean_name kv.1 = true ∧ clean_value kv.2 = true) params →
  str_in LF (run_id +:+ ":"
             +:+ join "," ((λ kv, " " +:+ kv.1 +:+ "='" +:+ kv.2 +:+ "'") <$> params))
  = false.
Proof.
  intros Hid Hall. rewrite !str_in_append, Hid. cbn [orb].
  change (str_in LF ":") with false. cbn [orb].
  apply str_in_join; [done|]. rewrite Forall_fmap. eapply Forall_impl; [exact Hall|].
  intros [k v] [(_ & _ & _ & Hk & _)%clean_name_spec (_ & _ & _ & Hv & _)%clean_value_spec].
  simpl in *. by rewrite !str_in_append, Hk, Hv.
Qed.

(** X12. Reading back what was written: a file of lines, each made of a
    run id, a colon and one or more parameters written as name='value'
    with commas between them, gives for each line the dictionary of its
    parameters (a later parameter of the same name replaces an earlier
    one), provided the run ids hold no colon or newline and the names
    and values are clean. *)
Theorem paramstrings_round_trip (rows : list (string * list (string * string))) :
  Forall (λ row, str_in ":" row.1 = false ∧ str_in LF row.1 = false ∧ row.2 ≠ []
                 ∧ Forall (λ kv, clean_name kv.1 = true ∧ clean_value kv.2 = true) row.2)
    rows →
  read_paramstrings_file (concat_str ((λ row, paramstring_line row.1 row.2) <$> rows))
  = Return ((λ row, list_to_map (reverse row.2)) <$> rows).
Proof.
  intros Hrows. unfold read_paramstrings_file.
  assert ((λ row : string * list (string * string), paramstring_line row.1 row.2) <$> rows
          = (λ body, body +:+ NEWLINE)
              <$> ((λ row : string * list (string * string),
                      row.1 +:+ ":"
                      +:+ join "," ((λ kv, " " +:+ kv.1 +:+ "='" +:+ kv.2 +:+ "'") <$> row.2))
                   <$> rows)) as Hlines.
  { rewrite <- list_fmap_compose. apply list_fmap_ext. intros _ [id params] _.
    unfold paramstring_line. simpl. by rewrite !append_assoc. }
  rewrite Hlines, readlines_lines.
  - rewrite <- Hlines. apply (paramstring_dicts_all _ _ []).
    apply Forall2_fmap. apply Forall_Forall2_diag.
    eapply Forall_impl; [exact Hrows|].
    intros [id params] (H1 & H2 & H3 & H4). by apply paramstring_dict_written.
  - rewrite Forall_fmap. eapply Forall_impl; [exact Hrows|].
    intros [id params] (H1 & H2 & H3 & H4). by apply paramstring_line_no_newline.
Qed.

Lemma paramstrings_round_trip_witness :
  read_paramstrings_file
    (concat_str ((λ row : string * list (string * string), paramstring_line row.1 row.2)
                   <$> [("12", [("alpha", "0.5"); ("beta", "x y")]); ("13", [("a", "1")])]))
  = Return ((λ row : string * list (string * string), list_to_map (reverse row.2))
              <$> [("12", [("alpha", "0.5"); ("beta", "x y")]); ("13", [("a", "1")])]).
Proof.
  apply (paramstrings_round_trip
           [("12", [("alpha", "0.5"); ("beta", "x y")]); ("13", [("a", "1")])]).
  repeat constructor; done.
Defined.

(** ** read_instances_file *)

Lemma split_whitespace_tokens (s : string) :
  Forall (λ tok, is_token tok = true) (split_whitespace s).
Proof.
  induction s as [|c s IH]; [done|]. cbn [split_whitespace].
  destruct (is_space c) eqn:Ec; [done|].
  destruct s as [|d s]; [by repeat constructor; simpl; rewrite Ec|].
  destruct (is_space d) eqn:Ed.
  - constructor; [by simpl; rewrite Ec | done].
  - destruct (split_whitespace (String d s)) as [|word words].
    + by repeat constructor; simpl; rewrite Ec.
    + apply Forall_cons in IH as [Hw Hws]. constructor; [|done].
      destruct word; [done|]. simpl in *. by rewrite Ec.
Qed.

Lemma split_whitespace_token (tok : string) :
  is_token tok = true → split_whitespace tok = [tok].
Proof.
  induction tok as [|c tok IH]; [done|]. cbn [is_token no_whitespace].
  intros [Hc Ht]%andb_prop. apply negb_true_iff in Hc.
  cbn [split_whitespace]. rewrite Hc. destruct tok as [|d tok]; [done|].
  pose proof Ht as [Hd _]%andb_prop. apply negb_true_iff in Hd. rewrite Hd.
  by rewrite IH.
Qed.

Lemma split_whitespace_token_space (tok rest : string) (w : ascii) :
  is_token tok = true → is_space w = true →
  split_whitespace (tok +:+ String w rest) = tok :: split_whitespace rest.
Proof.
  intros Ht Hw. induction tok as [|c tok IH]; [done|].
  cbn [is_token no_whitespace] in Ht. apply andb_prop in Ht as [Hc Ht].
  apply negb_true_iff in Hc. rewrite append_cons. cbn [split_whitespace]. rewrite Hc.
  destruct tok as [|d tok].
  - rewrite append_nil, Hw. cbn [split_whitespace]. by rewrite Hw.
  - rewrite append_cons in *. pose proof Ht as [Hd _]%andb_prop.
    apply negb_true_iff in Hd. rewrite Hd. by rewrite IH.
Qed.

Lemma no_whitespace_str_in (s : string) (c : ascii) :
  no_whitespace s = true → is_space c = true → str_in c s = false.
Proof.
  intros Hs Hc. induction s as [|x s IH]; [done|]. simpl in *.
  apply andb_prop in Hs as [Hx Hs]. apply negb_true_iff in Hx.
  rewrite IH by done. destruct (Ascii.eqb c x) eqn:E; [|done].
  apply Ascii.eqb_eq in E as ->. congruence.
Qed.

Lemma is_token_no_whitespace (tok : string) : is_token tok = true → no_whitespace tok = true.
Proof. by destruct tok. Qed.

Lemma token_starts (tok : string) :
  is_token tok = true → starts_in WHITESPACE tok = false.
Proof.
  destruct tok as [|c tok]; [done|]. cbn [is_token no_whitespace starts_in].
  intros [Hc _]%andb_prop. rewrite <- is_space_WHITESPACE. by apply negb_true_iff.
Qed.

Lemma token_ends (tok : string) :
  is_token tok = true → ends_in WHITESPACE tok = false.
Proof.
  intros Ht%is_token_no_whitespace. induction tok as [|c tok IH]; [done|].
  cbn [no_whitespace] in Ht. apply andb_prop in Ht as [Hc Ht].
  apply negb_true_iff in Hc. cbn [ends_in]. destruct tok as [|d tok].
  - by rewrite <- is_space_WHITESPACE.
  - by apply IH.
Qed.

Lemma join_tokens_not_empty (sep tok : string) (row : list string) :
  is_token tok = true → join sep (tok :: row) ≠ EmptyString.
Proof. destruct tok; [done|]. by destruct row. Qed.

(** A row of tokens written with single spaces and read back. *)
Lemma split_whitespace_join (row : list string) (tail : string) :
  Forall (λ tok, is_token tok = true) row → all_in WHITESPACE tail = true →
  split_whitespace (strip_space (join " " row +:+ tail)) = row.
Proof.
  intros Hrow Htail.
  assert (split_whitespace (join " " row) = row) as Hsplit.
  { clear Htail. induction Hrow as [|tok r Ht Hr IH]; [done|].
    destruct r as [|tok' r]; [by apply split_whitespace_token|].
    rewrite join_cons. change (" " +:+ ?x) with (String " " x).
    rewrite split_whitespace_token_space by done. by rewrite IH. }
  rewrite strip_space_strip, strip_append_all_in by done.
  destruct row as [|tok row]; [done|]. rewrite strip_fixed; [done| |].
  - apply Forall_cons in Hrow as [Ht _]. destruct row as [|tok' row].
    + by apply token_starts.
    + rewrite join_cons, starts_in_append. destruct tok; [done|]. by apply token_starts.
  - clear Hsplit Htail. induction Hrow as [|t r Ht Hr IH]; [done|].
    destruct r as [|t' r]; [by apply token_ends|].
    rewrite join_cons, !ends_in_append.
    pose proof Hr as [Ht' _]%Forall_cons.
    pose proof (join_tokens_not_empty " " t' r Ht') as Hne.
    destruct (join " " (t' :: r)) eqn:E; [done|]. by apply IH.
Qed.

(** X13. Every line of the file gives one entry, in order, blank lines
    included, and every token of every entry is one character or more
    with no whitespace in it. *)
Theorem instances_tokens_have_no_whitespace (text : string) :
  length (read_instances_file text) = length (readlines text)
  ∧ Forall (Forall (λ tok, is_token tok = true)) (read_instances_file text).
Proof.
  unfold read_instances_file. split; [by rewrite length_fmap|].
  rewrite Forall_fmap. apply Forall_true. intros line. apply split_whitespace_tokens.
Qed.

(** X14. Reading back what was written: a file whose lines are rows of
    tokens with a space between them gives the rows, an empty row for a
    blank line. *)
Theorem instances_round_trip (rows : list (list string)) :
  Forall (Forall (λ tok, is_token tok = true)) rows →
  read_instances_file (concat_str ((λ row, join " " row +:+ NEWLINE) <$> rows)) = rows.
Proof.
  intros Hrows. unfold read_instances_file.
  rewrite (list_fmap_compose (join " ") (λ body, body +:+ NEWLINE)).
  rewrite readlines_lines.
  - rewrite <- !list_fmap_compose. rewrite <- (list_fmap_id rows) at 2.
    apply Forall_fmap_ext_1. eapply Forall_impl; [exact Hrows|].
    intros row Hrow. simpl. by apply split_whitespace_join.
  - rewrite Forall_fmap. eapply Forall_impl; [exact Hrows|]. intros row Hrow. simpl.
    apply str_in_join; [done|]. eapply Forall_impl; [exact Hrow|].
    intros tok Ht. apply no_whitespace_str_in; [by apply is_token_no_whitespace | done].
Qed.

Lemma instances_round_trip_witness :
  read_instances_file
    (concat_str ((λ row, join " " row +:+ NEWLINE) <$> [["inst1"; "a"; "b"]; []; ["x"]]))
  = [["inst1"; "a"; "b"]; []; ["x"]].
Proof.
  apply (instances_round_trip [["inst1"; "a"; "b"]; []; ["x"]]).
  repeat constructor.
Defined.

(** ** read_validationCallStrings_file: what it returns and when it raises *)

Lemma lines_dicts_cases (lines : list string) (acc : list (gmap string string)) :
  (∃ ds, lines_dicts lines acc = Return (acc ++ ds)
         ∧ Forall2 (λ line d, ∃ tokens, config_tokens line = Some tokens
                                        ∧ Nat.even (length tokens) = true
                                        ∧ d = dict_of_flag_values tokens) lines ds)
  ∨ (lines_dicts lines acc = Raise (IndexError "list index out of range")
     ∧ Exists (λ line, match config_tokens line with
                       | Some tokens => Nat.even (length tokens) = false
                       | None => True
                       end) lines).
Proof.
  revert acc. induction lines as [|line lines IH]; intros acc.
  - left. exists []. by rewrite app_nil_r.
  - cbn [lines_dicts]. rewrite line_dict_spec.
    destruct (config_tokens line) as [tokens|] eqn:Et.
    + destruct (Nat.even (length tokens)) eqn:Ee.
      * cbn [py_bind].
        destruct (IH (acc ++ [dict_of_flag_values tokens])) as [(ds & -> & Hds)|[-> Hex]].
        -- left. exists (dict_of_flag_values tokens :: ds). rewrite <- app_assoc.
           split; [done|]. constructor; eauto.
        -- right. split; [done|]. by apply Exists_cons_tl.
      * right. split; [done|]. apply Exists_cons_hd. by rewrite Et.
    + right. split; [done|]. apply Exists_cons_hd. by rewrite Et.
Qed.

Lemma flag_value_pairs_elem_aux (n : nat) :
  ∀ (tokens : list string) (k v : string),
    length tokens ≤ n → (k, v) ∈ flag_value_pairs tokens →
    ∃ flag value, k = lstrip "-" flag ∧ v = strip (String SQUOTE EmptyString) value.
Proof.
  induction n as [|n IH]; intros [|flag [|value tokens]] k v Hn H;
    try (by apply elem_of_nil in H); try (simpl in Hn; lia).
  cbn [flag_value_pairs] in H. apply elem_of_cons in H as [[= -> ->]|H]; [eauto|].
  apply (IH tokens); [simpl in Hn; lia | done].
Qed.

Lemma flag_value_pairs_elem (tokens : list string) (k v : string) :
  (k, v) ∈ flag_value_pairs tokens →
  ∃ flag value, k = lstrip "-" flag ∧ v = strip (String SQUOTE EmptyString) value.
Proof. by apply (flag_value_pairs_elem_aux (length tokens)). Qed.

(** X15. The function raises nothing but IndexError, and it raises it
    exactly when some line after the header has no second
    comma-separated field or has a configuration field with an odd
    number of tokens. *)
Theorem validationCallStrings_raises_iff (text : string) :
  ((∃ e, read_validationCallStrings_file text = Raise e)
   ↔ Exists (λ line, match config_tokens line with
                     | Some tokens => Nat.even (length tokens) = false
                     | None => True
                     end) (drop 1 (readlines text)))
  ∧ (∀ e, read_validationCallStrings_file text = Raise e →
          e = IndexError "list index out of range").
Proof.
  unfold read_validationCallStrings_file.
  destruct (lines_dicts_cases (drop 1 (readlines text)) []) as [(ds & Hr & Hds)|[Hr Hex]];
    rewrite Hr.
  - split; [|done]. split; [by intros [? ?]|]. intros Hex. exfalso.
    clear Hr. induction Hds as [|line d lines ds' (tokens & Ht & He & _) _ IH].
    + by apply Exists_nil in Hex.
    + apply Exists_cons in Hex as [Hex|Hex]; [|done]. rewrite Ht in Hex. congruence.
  - split; [split; eauto | by intros e [= <-]].
Qed.

(** X16. What the function returns has one dictionary for each line
    after the header; no name in it starts with a dash, and no value
    starts or ends with a single quote. *)
Theorem validationCallStrings_entries_are_stripped (text : string)
    (dicts : list (gmap string string)) :
  read_validationCallStrings_file text = Return dicts →
  length dicts = length (readlines text) - 1
  ∧ Forall (λ d : gmap string string, ∀ k v, d !! k = Some v →
              starts_in "-" k = false
              ∧ starts_in (String SQUOTE EmptyString) v = false
              ∧ ends_in (String SQUOTE EmptyString) v = false) dicts.
Proof.
  unfold read_validationCallStrings_file. intros Hr.
  destruct (lines_dicts_cases (drop 1 (readlines text)) []) as [(ds & Hr' & Hds)|[Hr' _]];
    rewrite Hr' in Hr; simplify_eq. simpl. split.
  - apply Forall2_length in Hds. by rewrite <- Hds, length_drop.
  - clear Hr'. induction Hds as [|line d lines ds' (tokens & Ht & He & ->) _ IH]; [done|].
    constructor; [|done]. intros k v Hkv. unfold dict_of_flag_values in Hkv.
    apply elem_of_list_to_map_2 in Hkv. rewrite elem_of_reverse in Hkv.
    apply flag_value_pairs_elem in Hkv as (flag & value & -> & ->).
    destruct (lstrip_decompose "-" flag) as (? & _ & _ & H1).
    destruct (strip_decompose (String SQUOTE EmptyString) value) as (? & ? & _ & _ & _ & H2 & H3).
    done.
Qed.

Lemma validationCallStrings_entries_are_stripped_witness :
  length [ ({[ "alpha" := "0.5"; "beta" := "x" ]} : gmap string string) ]
  = length (readlines call_strings_even) - 1
  ∧ Forall (λ d : gmap string string, ∀ k v, d !! k = Some v →
              starts_in "-" k = false
              ∧ starts_in (String SQUOTE EmptyString) v = false
              ∧ ends_in (String SQUOTE EmptyString) v = false)
      [ {[ "alpha" := "0.5"; "beta" := "x" ]} ].
Proof.
  apply (validationCallStrings_entries_are_stripped call_strings_even).
  vm_compute. reflexivity.
Defined.

(** ** read_instance_features_file: the only way it returns *)

Lemma split_last_keeps_end (chars : string) (sep : ascii) (s piece : string) :
  str_in sep chars = false → ends_in chars s = true →
  last (split sep s) = Some piece → ends_in chars piece = true.
Proof.
  intros Hsep. revert piece. induction s as [|c s IH]; intros piece He; [done|].
  cbn [split]. pose proof (split_not_nil sep s) as Hne.
  destruct s as [|d s].
  - cbn [ends_in] in He. destruct (Ascii.eqb c sep) eqn:E.
    + apply Ascii.eqb_eq in E as ->. congruence.
    + simpl. by intros [= <-].
  - assert (ends_in chars (String d s) = true) as He' by done.
    destruct (Ascii.eqb c sep).
    + destruct (split sep (String d s)) as [|w ws] eqn:Es; [done|]. cbn [last].
      intros Hl. by apply IH.
    + destruct (split sep (String d s)) as [|w ws] eqn:Es; [done|].
      destruct ws as [|w' ws].
      * apply split_singleton in Es as <-. cbn [last]. by intros [= <-].
      * cbn [last] in *. intros Hl. by apply IH.
Qed.

Lemma last_drop_1 {A : Type} (l : list A) (x : A) :
  last (drop 1 l) = Some x → last l = Some x.
Proof. destruct l as [|a [|b l]]; done. Qed.

(** X17. The function returns only for a file of exactly one line, the
    header: it then returns the header's fields after the first, with
    an empty dictionary, and when the header line ends with a newline
    the last name returned still ends with it.  An empty file raises
    IndexError. *)
Theorem instance_features_returns_for_header_alone
    (ndarray : Type) (np_array : list string → py ndarray)
    (join : list string → py (list string)) (text : string) :
  ((∃ r, read_instance_features_file ndarray np_array join text = Return r)
   ↔ ∃ header, readlines text = [header])
  ∧ (∀ header, readlines text = [header] →
       read_instance_features_file ndarray np_array join text
       = Return (drop 1 (split "," header), ∅)
       ∧ ∀ name, ends_in NEWLINE header = true →
                 last (drop 1 (split "," header)) = Some name →
                 ends_in NEWLINE name = true)
  ∧ (readlines text = [] →
     read_instance_features_file ndarray np_array join text
     = Raise (IndexError "list index out of range")).
Proof.
  unfold read_instance_features_file.
  destruct (readlines text) as [|header [|line lines]] eqn:E.
  - split; [|done]. split; [by intros [? ?] | by intros [? ?]].
  - split; [|split; [|done]].
    + split; eauto.
    + intros ? [= <-]. split; [done|]. intros name He Hl.
      apply last_drop_1 in Hl. by eapply (split_last_keeps_end NEWLINE ",").
  - split; [|done]. split; [by intros [? ?] | by intros [? ?]].
Qed.

Lemma instance_features_returns_for_header_alone_witness :
  read_instance_features_file unit (λ _, Return ()) (λ l, Return l)
    ("instance,f1,f2" +:+ NEWLINE)
  = Return (drop 1 (split "," ("instance,f1,f2" +:+ NEWLINE)), ∅)
  ∧ ∀ name, ends_in NEWLINE ("instance,f1,f2" +:+ NEWLINE) = true →
            last (drop 1 (split "," ("instance,f1,f2" +:+ NEWLINE))) = Some name →
            ends_in NEWLINE name = true.
Proof.
  apply (proj1 (proj2 (instance_features_returns_for_header_alone
           unit (λ _, Return ()) (λ l, Return l) ("instance,f1,f2" +:+ NEWLINE)))).
  reflexivity.
Defined.

(** ** map_run_result: the order of the tests *)

Lemma strip_prefix_cons (a b : ascii) (p s : string) :
  strip_prefix (String a p) (String b s)
  = if Ascii.eqb a b then strip_prefix p s else None.
Proof. reflexivity. Qed.

Lemma strip_prefix_append (sub s : string) : strip_prefix sub (sub +:+ s) = Some s.
Proof.
  induction sub as [|c sub IH]; [done|].
  by rewrite append_cons, strip_prefix_cons, Ascii.eqb_refl.
Qed.

Lemma contains_unfold (sub s : string) :
  contains sub s
  = match strip_prefix sub s with
    | Some _ => true
    | None => match s with
              | EmptyString => false
              | String _ s' => contains sub s'
              end
    end.
Proof. by destruct s. Qed.

Lemma contains_at (sub pre post : string) :
  contains sub (pre +:+ sub +:+ post) = true.
Proof.
  induction pre as [|c pre IH].
  - rewrite append_nil, contains_unfold. by rewrite strip_prefix_append.
  - rewrite append_cons, contains_unfold, IH. by destruct (strip_prefix _ _).
Qed.

(** X18. A field with UNSAT in it has SAT in it as well, but never gets
    the code of SAT: it gets 1, or 0 when it also has TIMEOUT in it. *)
Theorem unsat_is_tested_before_sat (pre post : string) :
  contains "SAT" (pre +:+ "UNSAT" +:+ post) = true
  ∧ map_run_result (pre +:+ "UNSAT" +:+ post)
    = (if contains "TIMEOUT" (pre +:+ "UNSAT" +:+ post) then 0 else 1)%Z.
Proof.
  split.
  - replace (pre +:+ "UNSAT" +:+ post) with ((pre +:+ "UN") +:+ "SAT" +:+ post)
      by (by rewrite append_assoc).
    apply contains_at.
  - unfold map_run_result. by rewrite (contains_at "UNSAT").
Qed.

(** ** read_validationObjectiveMatrix_file *)

Lemma concat_str_app (l1 l2 : list string) :
  concat_str (l1 ++ l2) = concat_str l1 +:+ concat_str l2.
Proof.
  induction l1 as [|s l1 IH]; [done|]. cbn [app concat_str foldr].
  fold (concat_str (l1 ++ l2)). fold (concat_str l1). by rewrite IH, append_assoc.
Qed.

Lemma span_run (p : ascii → bool) (run rest : string) :
  all_chars p run = true →
  match rest with String c _ => p c = false | EmptyString => True end →
  span p (run +:+ rest) = (run, rest).
Proof.
  intros Hrun Hrest. induction run as [|c run IH].
  - rewrite append_nil. destruct rest as [|d rest]; [done|]. simpl. by rewrite Hrest.
  - cbn [all_chars] in Hrun. apply andb_prop in Hrun as [Hc Hrun].
    rewrite append_cons. cbn [span]. by rewrite Hc, IH.
Qed.

Lemma match_group_written (opening : string) (p : ascii → bool) (run rest : string) :
  all_chars p run = true → p DQUOTE = false →
  match_group opening p (opening +:+ run +:+ QUOTE +:+ rest) = Some (run, rest).
Proof.
  intros Hrun Hq. unfold match_group. rewrite strip_prefix_append.
  change (QUOTE +:+ rest) with (String DQUOTE rest).
  rewrite span_run by done. by rewrite Ascii.eqb_refl.
Qed.

Lemma match_separator_comma (rest : string) :
  match_separator ("," +:+ QUOTE +:+ rest) = Some (QUOTE +:+ rest).
Proof. reflexivity. Qed.

Lemma all_chars_str_in (p : ascii → bool) (s : string) (c : ascii) :
  all_chars p s = true → p c = false → str_in c s = false.
Proof.
  intros Hs Hc. induction s as [|x s IH]; [done|]. cbn [all_chars str_in] in *.
  apply andb_prop in Hs as [Hx Hs]. rewrite IH by done.
  destruct (Ascii.eqb c x) eqn:E; [|done]. apply Ascii.eqb_eq in E as ->. congruence.
Qed.

(** The scores of a written line are matched one by one, whatever
    follows the last one asked for. *)
Lemma match_scores_written (scores : list string) (rest : string) :
  Forall (λ score, all_chars is_score_char score = true) scores →
  match_scores (length scores)
    (concat_str ((λ score, "," +:+ QUOTE +:+ score +:+ QUOTE) <$> scores) +:+ rest)
  = Some scores.
Proof.
  induction 1 as [|score scores Hs _ IH]; [done|].
  cbn [length fmap list_fmap concat_str foldr match_scores].
  fold (concat_str ((λ score, "," +:+ QUOTE +:+ score +:+ QUOTE) <$> scores)).
  rewrite !append_assoc, match_separator_comma.
  rewrite (match_group_written QUOTE) by done. by rewrite IH.
Qed.

(** With fewer scores on the line than asked for, and the line ending
    there, the pattern does not match. *)
Lemma match_scores_short (scores : list string) (n : nat) :
  Forall (λ score, all_chars is_score_char score = true) scores →
  length scores < n →
  match_scores n
    (concat_str ((λ score, "," +:+ QUOTE +:+ score +:+ QUOTE) <$> scores) +:+ NEWLINE)
  = None.
Proof.
  intros H. revert n. induction H as [|score scores Hs _ IH]; intros [|n] Hn;
    try (simpl in Hn; lia); [done|].
  cbn [length fmap list_fmap concat_str foldr match_scores].
  fold (concat_str ((λ score, "," +:+ QUOTE +:+ score +:+ QUOTE) <$> scores)).
  rewrite !append_assoc, match_separator_comma.
  rewrite (match_group_written QUOTE) by done. rewrite IH; [done | simpl in Hn; lia].
Qed.

Lemma re_match_written (n : Z) (id count : string) (scores : list string) (rest : string) :
  all_chars is_digit id = true → all_chars is_digit count = true →
  Forall (λ score, all_chars is_score_char score = true) scores →
  Z.to_nat n = length scores →
  re_match n (matrix_line id count scores +:+ rest) = Some (id, count, scores).
Proof.
  intros Hid Hcount Hscores Hn. unfold re_match, matrix_line.
  rewrite !append_assoc.
  change (QUOTE +:+ "id_" +:+ ?x) with (String DQUOTE "id_" +:+ x).
  rewrite (match_group_written (String DQUOTE "id_")) by done.
  rewrite match_separator_comma.
  rewrite (match_group_written QUOTE) by done.
  by rewrite Hn, match_scores_written.
Qed.

Lemma re_match_short (n : Z) (id count : string) (scores : list string) :
  all_chars is_digit id = true → all_chars is_digit count = true →
  Forall (λ score, all_chars is_score_char score = true) scores →
  length scores < Z.to_nat n →
  re_match n (matrix_line id count scores +:+ NEWLINE) = None.
Proof.
  intros Hid Hcount Hscores Hn. unfold re_match, matrix_line.
  rewrite !append_assoc.
  change (QUOTE +:+ "id_" +:+ ?x) with (String DQUOTE "id_" +:+ x).
  rewrite (match_group_written (String DQUOTE "id_")) by done.
  rewrite match_separator_comma.
  rewrite (match_group_written QUOTE) by done.
  by rewrite match_scores_short.
Qed.

Lemma matrix_line_no_newline (id count : string) (scores : list string) :
  all_chars is_digit id = true → all_chars is_digit count = true →
  Forall (λ score, all_chars is_score_char score = true) scores →
  str_in LF (matrix_line id count scores) = false.
Proof.
  intros Hid Hcount Hscores. unfold matrix_line. rewrite !str_in_append.
  rewrite (all_chars_str_in is_digit id), (all_chars_str_in is_digit count) by done.
  cbn. induction Hscores as [|score scores Hs _ IH]; [done|].
  cbn [fmap list_fmap concat_str foldr].
  fold (concat_str ((λ score, "," +:+ QUOTE +:+ score +:+ QUOTE) <$> scores)).
  rewrite !str_in_append, IH, (all_chars_str_in is_score_char score) by done. done.
Qed.

Lemma foldl_insert_reverse `{Countable K} {A : Type} (pairs : list (K * A)) (m : gmap K A) :
  foldl (λ (d : gmap K A) kv, <[kv.1 := kv.2]> d) m pairs
  = list_to_map (reverse pairs) ∪ m.
Proof.
  revert m. induction pairs as [|[k v] pairs IH] using rev_ind; intros m.
  - rewrite reverse_nil. change (list_to_map []) with (∅ : gmap K A).
    by rewrite (left_id_L ∅ (∪)).
  - rewrite foldl_app, reverse_app. cbn [foldl reverse app list_to_map fst snd].
    rewrite IH. simpl. by rewrite insert_union_l.
Qed.

Section ObjectiveMatrixFacts.

Variable double : Type.
Variable float : string → py double.

Lemma int_of_decimal_digits (s : string) :
  s ≠ EmptyString → String.length s ≤ int_max_str_digits →
  int_of_decimal s = Return (int_of_digits 0 s).
Proof.
  intros Hne Hlim. destruct s as [|c s]; [done|]. unfold int_of_decimal.
  by rewrite (proj2 (Nat.ltb_ge _ _) Hlim).
Qed.

Lemma matrix_rows_written (n : nat) (rows : list (string * string * list string * list double))
    (values : gmap Z (list double)) :
  Forall (written_row double float n) rows →
  matrix_rows double float (Z.of_nat n)
    ((λ row, matrix_line row.1.1.1 row.1.1.2 row.1.2 +:+ NEWLINE) <$> rows) values
  = Return (foldl (λ d kv, <[kv.1 := kv.2]> d) values
              ((λ row, (int_of_digits 0 row.1.1.1, row.2)) <$> rows)).
Proof.
  intros H. revert values.
  induction H as [|[[[id count] scores] xs] rows (Hne & Hlim & Hid & Hc & Hs & Hn & Hf) _ IH];
    intros values; [done|].
  cbn [fmap list_fmap matrix_rows fst snd]. unfold matrix_row.
  rewrite re_match_written by (done || by rewrite Nat2Z.id).
  rewrite Hf. cbn [py_bind]. rewrite int_of_decimal_digits by done.
  cbn [py_bind]. apply IH.
Qed.

(** X19. Reading back what was written: after a header of n+2 fields,
    lines that hold a quoted id of at most 4300 digits, a quoted count
    and n quoted scores give the dictionary from each id, as an integer,
    to the floats of its scores; a later line with the same id replaces
    an earlier one. *)
Theorem objective_matrix_round_trip (n : nat) (header : string)
    (rows : list (string * string * list string * list double)) :
  str_in LF header = false →
  length (split "," (header +:+ NEWLINE)) = n + 2 →
  Forall (written_row double float n) rows →
  read_validationObjectiveMatrix_file double float
    (header +:+ NEWLINE
     +:+ concat_str ((λ row, matrix_line row.1.1.1 row.1.1.2 row.1.2 +:+ NEWLINE) <$> rows))
  = Return (list_to_map (reverse ((λ row, (int_of_digits 0 row.1.1.1, row.2)) <$> rows))).
Proof.
  intros Hh Hlen Hrows. unfold read_validationObjectiveMatrix_file.
  rewrite readlines_line by done. cbn [drop]. rewrite Hlen.
  replace (Z.of_nat (n + 2) - 2)%Z with (Z.of_nat n) by lia.
  assert ((λ row : string * string * list string * list double,
             matrix_line row.1.1.1 row.1.1.2 row.1.2 +:+ NEWLINE) <$> rows
          = (λ body, body +:+ NEWLINE)
              <$> ((λ row : string * string * list string * list double,
                      matrix_line row.1.1.1 row.1.1.2 row.1.2) <$> rows)) as Hlines.
  { by rewrite <- list_fmap_compose. }
  rewrite Hlines, readlines_lines.
  - rewrite <- Hlines.
    rewrite (matrix_rows_written n rows ∅ Hrows), foldl_insert_reverse.
    by rewrite (right_id_L ∅ (∪)).
  - rewrite Forall_fmap. eapply Forall_impl; [exact Hrows|].
    intros [[[id count] scores] xs] (_ & _ & Hid & Hc & Hs & _). simpl.
    by apply matrix_line_no_newline.
Qed.

(** X20. A line that the pattern does not match makes the function
    raise AttributeError: so does a line with fewer scores than the
    header announces, and so does a blank line. *)
Theorem objective_matrix_short_line_raises (header id count : string)
    (scores : list string) (rest : string) :
  str_in LF header = false →
  all_chars is_digit id = true → all_chars is_digit count = true →
  Forall (λ score, all_chars is_score_char score = true) scores →
  length scores + 2 < length (split "," (header +:+ NEWLINE)) →
  read_validationObjectiveMatrix_file double float
    (header +:+ NEWLINE +:+ matrix_line id count scores +:+ NEWLINE +:+ rest)
  = Raise (OtherException "AttributeError")
  ∧ read_validationObjectiveMatrix_file double float
      (header +:+ NEWLINE +:+ NEWLINE +:+ rest)
    = Raise (OtherException "AttributeError").
Proof.
  intros Hh Hid Hc Hs Hlen. unfold read_validationObjectiveMatrix_file. split.
  - rewrite readlines_line by done. cbn [drop].
    rewrite readlines_line by (by apply matrix_line_no_newline).
    cbn [drop matrix_rows]. unfold matrix_row.
    rewrite re_match_short; [done..|lia].
  - rewrite readlines_line by done. cbn [drop].
    change (NEWLINE +:+ rest) with (EmptyString +:+ NEWLINE +:+ rest).
    rewrite (readlines_line EmptyString) by done. done.
Qed.

End ObjectiveMatrixFacts.

Lemma objective_matrix_round_trip_witness :
  read_validationObjectiveMatrix_file string (λ s, Return s)
    ("id,count,c1,c2" +:+ NEWLINE
     +:+ concat_str ((λ row : string * string * list string * list string,
                        matrix_line row.1.1.1 row.1.1.2 row.1.2 +:+ NEWLINE)
                       <$> [("7", "3", ["1.5"; "2.0"], ["1.5"; "2.0"]);
                            ("12", "3", ["0.25"; "4"], ["0.25"; "4"])]))
  = Return (list_to_map (reverse ((λ row : string * string * list string * list string,
                                     (int_of_digits 0 row.1.1.1, row.2))
                                    <$> [("7", "3", ["1.5"; "2.0"], ["1.5"; "2.0"]);
                                         ("12", "3", ["0.25"; "4"], ["0.25"; "4"])]))).
Proof.
  apply (objective_matrix_round_trip string (λ s, Return s) 2 "id,count,c1,c2"
           [("7", "3", ["1.5"; "2.0"], ["1.5"; "2.0"]);
            ("12", "3", ["0.25"; "4"], ["0.25"; "4"])]).
  - reflexivity.
  - reflexivity.
  - repeat (apply Forall_cons; split); [| |by apply Forall_nil];
      (split; [done|]; split; [apply Nat.leb_le; vm_compute; reflexivity|]);
      repeat constructor; done.
Defined.

Lemma objective_matrix_short_line_raises_witness :
  read_validationObjectiveMatrix_file string (λ s, Return s)
    ("id,count,c1,c2" +:+ NEWLINE +:+ matrix_line "7" "3" ["1.5"] +:+ NEWLINE
     +:+ EmptyString)
  = Raise (OtherException "AttributeError")
  ∧ read_validationObjectiveMatrix_file string (λ s, Return s)
      ("id,count,c1,c2" +:+ NEWLINE +:+ NEWLINE +:+ EmptyString)
    = Raise (OtherException "AttributeError").
Proof.
  apply (objective_matrix_short_line_raises string (λ s, Return s)
           "id,count,c1,c2" "7" "3" ["1.5"] EmptyString).
  - reflexivity.
  - reflexivity.
  - reflexivity.
  - repeat constructor.
  - vm_compute. lia.
Defined.

(** X21. Only as many scores as the header announces are read from a
    line: whatever follows them on the line is ignored. *)
Theorem objective_matrix_ignores_rest_of_line (double : Type) (float : string → py double)
    (n : Z) (id count : string) (scores : list string) (rest : string)
    (values : gmap Z (list double)) :
  all_chars is_digit id = true → all_chars is_digit count = true →
  Forall (λ score, all_chars is_score_char score = true) scores →
  Z.to_nat n = length scores →
  matrix_row double float n (matrix_line id count scores +:+ rest) values
  = matrix_row double float n (matrix_line id count scores) values.
Proof.
  intros Hid Hc Hs Hn. unfold matrix_row.
  rewrite re_match_written by done.
  pose proof (re_match_written n id count scores EmptyString Hid Hc Hs Hn) as H.
  rewrite append_empty_r in H. by rewrite H.
Qed.

Lemma objective_matrix_ignores_rest_of_line_witness :
  matrix_row string (λ s, Return s) 1
    (matrix_line "7" "3" ["1.5"] +:+ (",x" +:+ QUOTE +:+ "2.0" +:+ QUOTE +:+ NEWLINE)) ∅
  = matrix_row string (λ s, Return s) 1 (matrix_line "7" "3" ["1.5"]) ∅.
Proof.
  apply (objective_matrix_ignores_rest_of_line string (λ s, Return s) 1 "7" "3" ["1.5"]
           (",x" +:+ QUOTE +:+ "2.0" +:+ QUOTE +:+ NEWLINE) ∅).
  - reflexivity.
  - reflexivity.
  - repeat constructor.
  - reflexivity.
Defined.

(** ** json_parse: what follows whitespace in the last chunk *)

(** The default decoder skips no whitespace before a value: on a text
    that starts with a space, a tab, a newline or a carriage return it
    raises JSONDecodeError. *)
Lemma raw_decode_leading_whitespace (c : ascii) (s : string) :
  is_ws c = true →
  raw_decode (String c s) = Raised (JSONDecodeError "Expecting value").
Proof.
  intros Hc. unfold raw_decode.
  replace (2 * String.length (String c s) + 1) with (S (2 * String.length (String c s)))
    by lia.
  unfold is_ws in Hc. rewrite !orb_true_iff, !Ascii.eqb_eq in Hc.
  destruct Hc as [[[-> | ->] | ->] | ->]; reflexivity.
Qed.

Lemma while_buffer_packed_before (decoder : string → decoded) (tail : string)
    (docs : list string) (vals : list json) (fuel : nat) (e : exn) :
  packed_before decoder tail docs vals → tail ≠ EmptyString →
  decoder tail = Raised e → is_ValueError e = true →
  String.length (concat_str docs +:+ tail) ≤ fuel →
  ∃ trace, while_buffer decoder fuel (concat_str docs +:+ tail) = (trace, LoopDone tail)
           ∧ values_of trace = vals ∧ last (attempts_of trace) = Some tail.
Proof.
  intros Hp Hne He Hv. revert vals fuel Hp.
  induction docs as [|doc docs IH]; intros [|v vals] fuel Hp Hf; try done.
  - cbn [concat_str foldr] in *. rewrite append_nil in *.
    destruct tail as [|c tail]; [done|]. destruct fuel as [|fuel]; [simpl in Hf; lia|].
    cbn [while_buffer]. rewrite He, Hv. by eexists.
  - destruct Hp as (Hd & Hdec & Hp). cbn [concat_str foldr] in *.
    fold (concat_str docs) in *. rewrite append_assoc in *.
    rewrite length_append in Hf.
    destruct doc as [|c doc]; [done|]. rewrite append_cons in *.
    destruct fuel as [|fuel]; [simpl in Hf; lia|].
    cbn [while_buffer]. rewrite Hdec. rewrite <- append_cons, slice_from_append.
    destruct (IH vals fuel Hp) as (tr & Hw & Hvals & Hlast); [simpl in Hf; lia|].
    rewrite Hw. eexists. split; [done|]. split; [by simpl; rewrite Hvals|].
    simpl. destruct (attempts_of tr); [done|]. done.
Qed.

(** X22. With the default decoder, when the last chunk holds documents
    with nothing between them and then, after a space, tab, newline or
    carriage return, more text, the generator yields the values of the
    documents before the whitespace only: its last decode attempt is on
    the text that starts with the whitespace, and it returns without
    decoding what follows. *)
Theorem text_after_whitespace_is_dropped (buffer chunk : string) (docs : list string)
    (vals : list json) (w : ascii) (rest : string) :
  chunk ≠ EmptyString → is_ws w = true →
  strip SPACE_NEWLINE (buffer +:+ chunk) = concat_str docs +:+ String w rest →
  packed_before raw_decode (String w rest) docs vals →
  ∃ trace, for_chunk raw_decode [chunk] buffer = (trace, Exhausted)
           ∧ values_of trace = vals
           ∧ last (attempts_of trace) = Some (String w rest).
Proof.
  intros Hne Hw Hs Hp. destruct chunk as [|c chunk]; [done|]. cbn [for_chunk].
  rewrite Hs.
  destruct (while_buffer_packed_before raw_decode (String w rest) docs vals
              (String.length (concat_str docs +:+ String w rest))
              (JSONDecodeError "Expecting value") Hp)
    as (tr & Hwb & Hv & Hl); [done | by apply raw_decode_leading_whitespace | done | done|].
  rewrite Hwb. exists tr. by rewrite app_nil_r.
Qed.

Lemma text_after_whitespace_is_dropped_witness :
  ∃ trace, for_chunk raw_decode [trailing_whitespace_stream] EmptyString = (trace, Exhausted)
           ∧ values_of trace = [obj_a]
           ∧ last (attempts_of trace)
             = Some (String LF (NEWLINE +:+ "   " +:+ dq "{'b':2}")).
Proof.
  apply (text_after_whitespace_is_dropped EmptyString trailing_whitespace_stream
           [dq "{'a':1}"] [obj_a] LF (NEWLINE +:+ "   " +:+ dq "{'b':2}")).
  - done.
  - reflexivity.
  - reflexivity.
  - repeat split; done.
Defined.

(** ** read_validationCallStrings_file: reading back a written file *)

Lemma split_join_suffix (sep : ascii) (init : list string) (lst sfx : string) :
  Forall (λ tok, str_in sep tok = false) init →
  str_in sep lst = false → str_in sep sfx = false →
  split sep (join (String sep EmptyString) (init ++ [lst]) +:+ sfx) = init ++ [lst +:+ sfx].
Proof.
  intros Hi Hl Hs. induction Hi as [|tok init Ht Hi IH].
  - simpl. apply split_no_sep. by rewrite str_in_append, Hl, Hs.
  - cbn [app]. destruct (init ++ [lst]) as [|tok' toks] eqn:E.
    { by destruct init. }
    rewrite join_cons. rewrite !append_assoc. rewrite append_cons, append_nil.
    rewrite split_append_sep by done. by rewrite IH.
Qed.

Lemma is_flag_spec (k : string) :
  is_flag k = true →
  str_in " " k = false ∧ str_in "," k = false ∧ str_in LF k = false
  ∧ starts_in "-" k = false.
Proof.
  unfold is_flag. rewrite !andb_true_iff, !negb_true_iff. tauto.
Qed.

Lemma is_flag_value_spec (v : string) :
  is_flag_value v = true →
  str_in " " v = false ∧ str_in "," v = false ∧ str_in LF v = false
  ∧ starts_in APOSTROPHE v = false ∧ ends_in APOSTROPHE v = false.
Proof.
  unfold is_flag_value. rewrite !andb_true_iff, !negb_true_iff. tauto.
Qed.

Lemma lstrip_fixed (chars s : string) : starts_in chars s = false → lstrip chars s = s.
Proof. destruct s as [|c s]; [done|]. simpl. by intros ->. Qed.

Lemma flag_token (k : string) : is_flag k = true → lstrip "-" ("-" +:+ k) = k.
Proof.
  intros (_ & _ & _ & H)%is_flag_spec.
  rewrite (lstrip_prepend_all_in "-" "-" k) by done. by apply lstrip_fixed.
Qed.

Lemma value_token (v : string) :
  is_flag_value v = true → strip APOSTROPHE (APOSTROPHE +:+ v +:+ APOSTROPHE) = v.
Proof.
  intros (_ & _ & _ & H1 & H2)%is_flag_value_spec.
  rewrite (strip_prepend_all_in APOSTROPHE APOSTROPHE) by done.
  rewrite strip_append_all_in by done. by apply strip_fixed.
Qed.

Lemma flag_value_pairs_written (pairs : list (string * string)) (rest : list string) :
  Forall (λ kv, is_flag kv.1 = true ∧ is_flag_value kv.2 = true) pairs →
  flag_value_pairs (call_string_tokens pairs ++ rest) = pairs ++ flag_value_pairs rest.
Proof.
  intros Hp. induction Hp as [|[k v] pairs [Hk Hv] Hp IH]; [done|].
  unfold call_string_tokens in *. cbn [mbind list_bind app fst snd] in *.
  cbn [flag_value_pairs]. rewrite flag_token, value_token by done. by rewrite IH.
Qed.

Lemma call_string_tokens_no_sep (c : ascii) (pairs : list (string * string)) :
  str_in c "-" = false → str_in c APOSTROPHE = false →
  Forall (λ kv, str_in c kv.1 = false ∧ str_in c kv.2 = false) pairs →
  Forall (λ tok, str_in c tok = false) (call_string_tokens pairs).
Proof.
  intros Hd Hq Hp.
  induction Hp as [|[k v] pairs [Hk Hv] Hp IH]; [by apply Forall_nil|].
  unfold call_string_tokens in *. cbn [mbind list_bind app fst snd] in *.
  repeat (apply Forall_cons; split); [| |done].
  - by rewrite str_in_append, Hd, Hk.
  - by rewrite !str_in_append, Hq, Hv.
Qed.

Lemma call_string_tokens_snoc (pairs : list (string * string)) (k v : string) :
  call_string_tokens (pairs ++ [(k, v)])
  = (call_string_tokens pairs ++ ["-" +:+ k]) ++ [APOSTROPHE +:+ v +:+ APOSTROPHE].
Proof.
  unfold call_string_tokens. rewrite bind_app. simpl. by rewrite <- app_assoc.
Qed.

Lemma call_string_tokens_last (pairs : list (string * string)) :
  pairs ≠ [] →
  ∃ init k v, pairs = init ++ [(k, v)].
Proof.
  intros Hne. destruct (decide (pairs = [])) as [|_]; [done|].
  induction pairs as [|kv pairs IH] using rev_ind; [done|].
  destruct kv as [k v]. eauto.
Qed.

Lemma strip_quoted (body sfx : string) :
  starts_in QUOTE body = false → body ≠ EmptyString →
  ends_in QUOTE (body +:+ QUOTE +:+ sfx) = false →
  strip QUOTE (QUOTE +:+ body +:+ QUOTE +:+ sfx) = body +:+ QUOTE +:+ sfx.
Proof.
  intros Hs Hne He. rewrite (strip_prepend_all_in QUOTE QUOTE) by done.
  apply strip_fixed; [|done]. destruct body; done.
Qed.

Lemma join_snoc (sep : string) (toks : list string) (lst : string) :
  toks ≠ [] → join sep (toks ++ [lst]) = join sep toks +:+ sep +:+ lst.
Proof.
  intros Hne. induction toks as [|tok toks IH]; [done|].
  destruct toks as [|tok' toks]; [done|].
  cbn [app] in *. rewrite !join_cons, IH by done. by rewrite !append_assoc.
Qed.

Lemma length_call_string_tokens (pairs : list (string * string)) :
  length (call_string_tokens pairs) = 2 * length pairs.
Proof.
  induction pairs as [|kv pairs IH]; [done|].
  unfold call_string_tokens in *. cbn [mbind list_bind app length]. rewrite IH. lia.
Qed.

(** The text between the double quotes: it starts with a dash, ends
    with a single quote, and holds no comma and no newline. *)
Lemma call_string_body (pairs : list (string * string)) (k v : string) :
  Forall (λ kv, is_flag kv.1 = true ∧ is_flag_value kv.2 = true) pairs →
  is_flag k = true → is_flag_value v = true →
  ∀ body, body = join " " (call_string_tokens (pairs ++ [(k, v)])) →
  starts_in QUOTE body = false ∧ body ≠ EmptyString
  ∧ (∀ sfx, sfx ≠ EmptyString → ends_in QUOTE (body +:+ sfx) = ends_in QUOTE sfx)
  ∧ ends_in QUOTE body = false
  ∧ str_in "," body = false ∧ str_in LF body = false.
Proof.
  intros Hp Hk Hv body ->.
  set (body := join " " (call_string_tokens (pairs ++ [(k, v)]))).
  assert (∃ rest, body = String "-" rest) as [rest Hb].
  { unfold body. destruct pairs as [|[k0 v0] pairs]; unfold call_string_tokens;
      cbn [mbind list_bind app fst snd]; rewrite join_cons; eauto. }
  assert (∃ init, body = init +:+ APOSTROPHE) as [init Hi].
  { unfold body. rewrite call_string_tokens_snoc.
    rewrite join_snoc by (by destruct (call_string_tokens pairs)).
    eexists. by rewrite <- !append_assoc. }
  assert (Forall (λ kv, is_flag kv.1 = true ∧ is_flag_value kv.2 = true) (pairs ++ [(k, v)]))
    as Hall by (apply Forall_app; split; [done | by apply Forall_singleton]).
  split; [by rewrite Hb|]. split; [by rewrite Hb|]. split; [|split; [|split]].
  - intros sfx Hs. rewrite ends_in_append. by destruct sfx.
  - rewrite Hi, ends_in_append. done.
  - apply str_in_join; [done|]. apply call_string_tokens_no_sep; [done..|].
    eapply Forall_impl; [exact Hall|]. intros [k' v'] [H1 H2]. simpl.
    apply is_flag_spec in H1. apply is_flag_value_spec in H2. tauto.
  - apply str_in_join; [done|]. apply call_string_tokens_no_sep; [done..|].
    eapply Forall_impl; [exact Hall|]. intros [k' v'] [H1 H2]. simpl.
    apply is_flag_spec in H1. apply is_flag_value_spec in H2. tauto.
Qed.

Lemma call_string_tokens_no_space (pairs : list (string * string)) :
  Forall (λ kv, is_flag kv.1 = true ∧ is_flag_value kv.2 = true) pairs →
  Forall (λ tok, str_in " " tok = false) (call_string_tokens pairs).
Proof.
  intros Hp. apply call_string_tokens_no_sep; [done..|].
  eapply Forall_impl; [exact Hp|]. intros [k' v'] [H1 H2]. simpl.
  apply is_flag_spec in H1. apply is_flag_value_spec in H2. tauto.
Qed.

(** A written line with another field after the configuration. *)
Lemma line_dict_written (id : string) (pairs : list (string * string)) (more : string) :
  str_in "," id = false → pairs ≠ [] →
  Forall (λ kv, is_flag kv.1 = true ∧ is_flag_value kv.2 = true) pairs →
  line_dict (call_string_line id pairs ("," +:+ more) +:+ NEWLINE)
  = Return (list_to_map (reverse pairs)).
Proof.
  intros Hid Hne Hp. rewrite line_dict_spec.
  destruct (call_string_tokens_last pairs Hne) as (init & k & v & ->).
  apply Forall_app in Hp as [Hinit [Hk Hv]%Forall_singleton]. simpl in Hk, Hv.
  destruct (call_string_body init k v Hinit Hk Hv _ eq_refl)
    as (Hs & Hb & He & He' & Hc & Hl).
  set (body := join " " (call_string_tokens (init ++ [(k, v)]))) in *.
  assert (config_tokens (call_string_line id (init ++ [(k, v)]) ("," +:+ more) +:+ NEWLINE)
          = Some (call_string_tokens (init ++ [(k, v)]))) as ->.
  { unfold config_tokens, call_string_line. fold body.
    rewrite !append_assoc. rewrite (append_cons "," EmptyString), append_nil.
    rewrite split_append_sep by done.
    change ("," +:+ more +:+ NEWLINE) with (String "," (more +:+ NEWLINE)).
    replace (QUOTE +:+ body +:+ QUOTE +:+ String "," (more +:+ NEWLINE))
      with ((QUOTE +:+ body +:+ QUOTE) +:+ String "," (more +:+ NEWLINE))
      by (by rewrite !append_assoc).
    rewrite split_append_sep by (by rewrite !str_in_append, Hc).
    cbn [lookup list_lookup].
    fold QUOTE. rewrite (strip_prepend_all_in QUOTE QUOTE) by done.
    rewrite strip_append_all_in by done. rewrite strip_fixed by done.
    unfold body. rewrite call_string_tokens_snoc.
    rewrite <- (append_empty_r (join _ _)).
    rewrite split_join_suffix; [by rewrite append_empty_r | | |done].
    - apply Forall_app. split; [by apply call_string_tokens_no_space|].
      apply Forall_singleton. apply is_flag_spec in Hk. by rewrite str_in_append, (proj1 Hk).
    - apply is_flag_value_spec in Hv. by rewrite !str_in_append, (proj1 Hv). }
  rewrite length_call_string_tokens, Nat.even_mul. simpl.
  unfold dict_of_flag_values. rewrite <- (app_nil_r (call_string_tokens _)).
  rewrite flag_value_pairs_written; [by rewrite app_nil_r|].
  apply Forall_app; split; [done | by apply Forall_singleton].
Qed.

(** A written line that ends with the configuration. *)
Lemma line_dict_written_last (id : string) (init : list (string * string)) (k v : string) :
  str_in "," id = false →
  Forall (λ kv, is_flag kv.1 = true ∧ is_flag_value kv.2 = true) init →
  is_flag k = true → is_flag_value v = true → v ≠ EmptyString →
  line_dict (call_string_line id (init ++ [(k, v)]) EmptyString +:+ NEWLINE)
  = Return (<[k := v +:+ APOSTROPHE +:+ QUOTE +:+ NEWLINE]> (list_to_map (reverse init))).
Proof.
  intros Hid Hinit Hk Hv Hne. rewrite line_dict_spec.
  destruct (call_string_body init k v Hinit Hk Hv _ eq_refl)
    as (Hs & Hb & He & He' & Hc & Hl).
  set (body := join " " (call_string_tokens (init ++ [(k, v)]))) in *.
  assert (config_tokens (call_string_line id (init ++ [(k, v)]) EmptyString +:+ NEWLINE)
          = Some (call_string_tokens init
                  ++ ["-" +:+ k; (APOSTROPHE +:+ v +:+ APOSTROPHE) +:+ QUOTE +:+ NEWLINE]))
    as ->.
  { unfold config_tokens, call_string_line. fold body.
    rewrite !append_assoc. rewrite (append_cons "," EmptyString), !append_nil.
    rewrite split_append_sep by done.
    rewrite split_no_sep by (by rewrite !str_in_append, Hc).
    cbn [lookup list_lookup]. fold QUOTE.
    rewrite strip_quoted; [|done..|rewrite He; [done | by vm_compute]].
    unfold body. rewrite call_string_tokens_snoc.
    rewrite split_join_suffix; [by rewrite <- app_assoc, !append_assoc | | |done].
    - apply Forall_app. split; [by apply call_string_tokens_no_space|].
      apply Forall_singleton. apply is_flag_spec in Hk. by rewrite str_in_append, (proj1 Hk).
    - apply is_flag_value_spec in Hv. by rewrite !str_in_append, (proj1 Hv). }
  rewrite length_app, length_call_string_tokens.
  replace (2 * length init + length _) with (2 * (length init + 1)) by (simpl; lia).
  rewrite Nat.even_mul. cbn [Nat.even orb].
  unfold dict_of_flag_values. rewrite flag_value_pairs_written by done.
  cbn [flag_value_pairs]. rewrite flag_token by done.
  rewrite reverse_app. cbn [reverse rev_append app list_to_map fst snd].
  rewrite !append_assoc.
  rewrite (strip_prepend_all_in APOSTROPHE APOSTROPHE) by done.
  apply is_flag_value_spec in Hv as (_ & _ & _ & Hv1 & Hv2).
  rewrite strip_fixed; [done | by destruct v | by rewrite ends_in_append].
Qed.

Lemma lines_dicts_all {A : Type} (line : A → string) (dict : A → gmap string string)
    (rows : list A) (acc : list (gmap string string)) :
  Forall (λ row, line_dict (line row) = Return (dict row)) rows →
  lines_dicts (line <$> rows) acc = Return (acc ++ (dict <$> rows)).
Proof.
  intros Hrows. revert acc. induction Hrows as [|row rows Hrow _ IH]; intros acc.
  - by rewrite app_nil_r.
  - cbn [fmap list_fmap lines_dicts]. rewrite Hrow. cbn [py_bind].
    change (list_fmap A string line rows) with (line <$> rows).
    by rewrite IH, <- app_assoc.
Qed.

Lemma call_string_line_no_newline (id : string) (init : list (string * string))
    (k v tail : string) :
  str_in LF id = false → str_in LF tail = false →
  Forall (λ kv, is_flag kv.1 = true ∧ is_flag_value kv.2 = true) init →
  is_flag k = true → is_flag_value v = true →
  str_in LF (call_string_line id (init ++ [(k, v)]) tail) = false.
Proof.
  intros Hid Ht Hinit Hk Hv.
  destruct (call_string_body init k v Hinit Hk Hv _ eq_refl) as (_ & _ & _ & _ & _ & Hl).
  unfold call_string_line. by rewrite !str_in_append, Hid, Hl, Ht.
Qed.

Lemma read_written_call_strings {A : Type} (header : string) (line : A → string)
    (dict : A → gmap string string) (rows : list A) :
  str_in LF header = false →
  Forall (λ row, str_in LF (line row) = false
                 ∧ line_dict (line row +:+ NEWLINE) = Return (dict row)) rows →
  read_validationCallStrings_file
    (concat_str ((λ body, body +:+ NEWLINE) <$> header :: (line <$> rows)))
  = Return (dict <$> rows).
Proof.
  intros Hh Hrows. unfold read_validationCallStrings_file.
  rewrite readlines_lines.
  - rewrite fmap_cons. cbn [drop]. rewrite drop_0, <- list_fmap_compose.
    rewrite (lines_dicts_all ((λ body, body +:+ NEWLINE) ∘ line) dict); [done|].
    eapply Forall_impl; [exact Hrows|]. by intros row [_ H].
  - apply Forall_cons. split; [done|]. rewrite Forall_fmap.
    eapply Forall_impl; [exact Hrows|]. by intros row [H _].
Qed.

(** X23. Reading back what was written, when another field follows the
    configuration: for lines of the form identifier, comma, the quoted
    configuration, comma, more text, the function returns for each line
    the dictionary of its flags and values; where a flag occurs twice
    the later value stands. *)
Theorem validationCallStrings_round_trip (header : string)
    (rows : list (string * list (string * string) * string)) :
  str_in LF header = false →
  Forall (λ row, str_in "," row.1.1 = false ∧ str_in LF row.1.1 = false
                 ∧ row.1.2 ≠ []
                 ∧ Forall (λ kv, is_flag kv.1 = true ∧ is_flag_value kv.2 = true) row.1.2
                 ∧ str_in LF row.2 = false) rows →
  read_validationCallStrings_file
    (concat_str ((λ body, body +:+ NEWLINE)
                 <$> header :: ((λ row, call_string_line row.1.1 row.1.2 ("," +:+ row.2))
                                <$> rows)))
  = Return ((λ row, list_to_map (reverse row.1.2)) <$> rows).
Proof.
  intros Hh Hrows.
  apply (read_written_call_strings header
           (λ row, call_string_line row.1.1 row.1.2 ("," +:+ row.2))
           (λ row, list_to_map (reverse row.1.2))); [done|].
  eapply Forall_impl; [exact Hrows|].
  intros [[id pairs] more] (Hc & Hl & Hne & Hp & Hm). cbn [fst snd] in *. split.
  - destruct (call_string_tokens_last pairs Hne) as (init & k & v & ->).
    apply Forall_app in Hp as [Hinit [Hk Hv]%Forall_singleton].
    by apply call_string_line_no_newline.
  - by apply line_dict_written.
Qed.

Lemma validationCallStrings_round_trip_witness :
  read_validationCallStrings_file
    (concat_str ((λ body, body +:+ NEWLINE)
                 <$> "id,config,seed"
                     :: ((λ row : string * list (string * string) * string,
                            call_string_line row.1.1 row.1.2 ("," +:+ row.2))
                         <$> [("1", [("alpha", "0.5"); ("beta", "x")], "0")])))
  = Return ((λ row : string * list (string * string) * string,
               list_to_map (reverse row.1.2))
            <$> [("1", [("alpha", "0.5"); ("beta", "x")], "0")]).
Proof.
  apply (validationCallStrings_round_trip "id,config,seed"
           [("1", [("alpha", "0.5"); ("beta", "x")], "0")]).
  - reflexivity.
  - repeat constructor; done.
Defined.

(** X24. When the configuration is the last field of its line, the
    closing double quote is not removed, because the newline follows
    it: the last flag of each line gets its value followed by a single
    quote, a double quote and the newline.  The other flags get their
    values as written. *)
Theorem validationCallStrings_last_field_keeps_line_end (header : string)
    (rows : list (string * list (string * string) * (string * string))) :
  str_in LF header = false →
  Forall (λ row, str_in "," row.1.1 = false ∧ str_in LF row.1.1 = false
                 ∧ Forall (λ kv, is_flag kv.1 = true ∧ is_flag_value kv.2 = true) row.1.2
                 ∧ is_flag row.2.1 = true ∧ is_flag_value row.2.2 = true
                 ∧ row.2.2 ≠ EmptyString) rows →
  read_validationCallStrings_file
    (concat_str ((λ body, body +:+ NEWLINE)
                 <$> header :: ((λ row, call_string_line row.1.1 (row.1.2 ++ [row.2])
                                          EmptyString)
                                <$> rows)))
  = Return ((λ row, <[row.2.1 := row.2.2 +:+ APOSTROPHE +:+ QUOTE +:+ NEWLINE]>
                      (list_to_map (reverse row.1.2))) <$> rows).
Proof.
  intros Hh Hrows.
  apply (read_written_call_strings header
           (λ row, call_string_line row.1.1 (row.1.2 ++ [row.2]) EmptyString)
           (λ row, <[row.2.1 := row.2.2 +:+ APOSTROPHE +:+ QUOTE +:+ NEWLINE]>
                     (list_to_map (reverse row.1.2)))); [done|].
  eapply Forall_impl; [exact Hrows|].
  intros [[id pairs] [k v]] (Hc & Hl & Hp & Hk & Hv & Hne). cbn [fst snd] in *. split.
  - by apply call_string_line_no_newline.
  - by apply line_dict_written_last.
Qed.

Lemma validationCallStrings_last_field_keeps_line_end_witness :
  read_validationCallStrings_file
    (concat_str ((λ body, body +:+ NEWLINE)
                 <$> "id,config"
                     :: ((λ row : string * list (string * string) * (string * string),
                            call_string_line row.1.1 (row.1.2 ++ [row.2]) EmptyString)
                         <$> [("1", [("alpha", "0.5")], ("beta", "x"))])))
  = Return ((λ row : string * list (string * string) * (string * string),
               <[row.2.1 := row.2.2 +:+ APOSTROPHE +:+ QUOTE +:+ NEWLINE]>
                 (list_to_map (reverse row.1.2)))
            <$> [("1", [("alpha", "0.5")], ("beta", "x"))]).
Proof.
  apply (validationCallStrings_last_field_keeps_line_end "id,config"
           [("1", [("alpha", "0.5")], ("beta", "x"))]).
  - reflexivity.
  - repeat constructor; done.
Defined.
